(** * next-api-gen: the prompt wizard and the route emitter of [src/index.js]

    A shallow embedding of the program's two parts, the five-step prompt
    loop of [main] and the emitter [generateApiRoute] with its four text
    templates, and the properties of them that the specification states.

    Conventions of the model.
    - A JavaScript string is a [string]: the sequence of the bytes of its
      UTF-8 encoding.
    - The [answers] object and the file system are finite maps ([gmap]).
    - The user is a finite script of submissions to the prompt widgets; the
      file system may refuse any operation (a fault oracle in the
      environment), which is how [fs.mkdirSync] and [fs.writeFileSync] throw.
    - [path] is the POSIX implementation of Node.js, and the prompt widgets
      follow the contract of the prompt library; neither is part of the
      repository.
    - Terminal colouring ([picocolors]) and the one second start-up delay are
      presentation only and are left out. *)

From Stdlib Require Import Ascii String List ZArith Lia DecimalString.
From stdpp Require Import gmap strings list fin_maps.
Import ListNotations.

(* ===================================================================== *)
(** * Strings: the methods of [String.prototype] the program calls       *)
(* ===================================================================== *)

Module JsString.

Definition nl : string := String "010"%char "".

(** [strip_prefix p s] is [Some r] exactly when [s = p ++ r]. *)
Fixpoint strip_prefix (p s : string) : option string :=
  match p, s with
  | EmptyString, _ => Some s
  | String a p', String b s' =>
      if Ascii.eqb a b then strip_prefix p' s' else None
  | String _ _, EmptyString => None
  end.

Definition startsWith (p s : string) : bool :=
  match strip_prefix p s with Some _ => true | None => false end.

(** [s.includes(needle)] *)
Fixpoint includes (needle s : string) : bool :=
  if startsWith needle s then true
  else match s with
       | EmptyString => false
       | String _ s' => includes needle s'
       end.

(** The relational reading of [includes]: [needle] occurs in [s]. *)
Definition occurs_in (needle s : string) : Prop :=
  exists before after, s = before +:+ needle +:+ after.

(** [s.split(sep)] for a one-character separator: never the empty list,
    [''.split('/')] is [['']]. *)
Fixpoint split (sep : ascii) (s : string) : list string :=
  match s with
  | EmptyString => [EmptyString]
  | String c s' =>
      if Ascii.eqb c sep then EmptyString :: split sep s'
      else match split sep s' with
           | [] => [String c EmptyString]
           | seg :: segs => String c seg :: segs
           end
  end.

Fixpoint has_char (c : ascii) (s : string) : bool :=
  match s with
  | EmptyString => false
  | String a s' => Ascii.eqb a c || has_char c s'
  end.

Fixpoint last_char (s : string) : option ascii :=
  match s with
  | EmptyString => None
  | String c EmptyString => Some c
  | String _ s' => last_char s'
  end.

Definition endsWith_char (c : ascii) (s : string) : bool :=
  match last_char s with
  | Some a => Ascii.eqb a c
  | None => false
  end.

(** ASCII [toLowerCase]; bytes above 127 (parts of a multi-byte
    character) are left alone. *)
Definition lower_char (c : ascii) : ascii :=
  let n := nat_of_ascii c in
  if (65 <=? n)%nat && (n <=? 90)%nat then ascii_of_nat (n + 32) else c.

Fixpoint toLowerCase (s : string) : string :=
  match s with
  | EmptyString => EmptyString
  | String c s' => String (lower_char c) (toLowerCase s')
  end.

(** [s.replace(pat, by)] with a string pattern: the FIRST occurrence only. *)
Fixpoint replace (pat by_ s : string) : string :=
  match strip_prefix pat s with
  | Some rest => by_ +:+ rest
  | None => match s with
            | EmptyString => EmptyString
            | String c s' => String c (replace pat by_ s')
            end
  end.

(** White space and line terminators of ECMAScript, as UTF-8 byte
    sequences: TAB LF VT FF CR SP, U+00A0, U+1680, U+2000..U+200A,
    U+2028, U+2029, U+202F, U+205F, U+3000, U+FEFF. *)
Definition bytes (l : list nat) : string :=
  fold_right (fun n s => String (ascii_of_nat n) s) EmptyString l.

Definition white_space : list string :=
  map bytes
    ([[9]; [10]; [11]; [12]; [13]; [32]; [194; 160]; [225; 154; 128]]
     ++ map (fun k => [226; 128; 128 + k]) (seq 0 11)
     ++ [[226; 128; 168]; [226; 128; 169]; [226; 128; 175];
         [226; 129; 159]; [227; 128; 128]; [239; 187; 191]])%nat.

(** Drops one leading white-space character, if there is one. *)
Fixpoint strip_one (tokens : list string) (s : string) : option string :=
  match tokens with
  | [] => None
  | t :: ts => match strip_prefix t s with
               | Some r => Some r
               | None => strip_one ts s
               end
  end.

Fixpoint strip_many (fuel : nat) (tokens : list string) (s : string) : string :=
  match fuel with
  | O => s
  | S fuel' => match strip_one tokens s with
               | Some r => strip_many fuel' tokens r
               | None => s
               end
  end.

Definition trimStart (s : string) : string :=
  strip_many (String.length s) white_space s.

Definition trimEnd (s : string) : string :=
  String.rev (strip_many (String.length s) (map String.rev white_space)
                (String.rev s)).

(** [s.trim()] *)
Definition trim (s : string) : string := trimEnd (trimStart s).

(** Decimal rendering of a number, as a template literal does it. *)
Definition of_nat (n : nat) : string :=
  NilEmpty.string_of_uint (Nat.to_uint n).

End JsString.

(* ===================================================================== *)
(** * Values of the dynamically typed parts                               *)
(* ===================================================================== *)

(** The values that flow through [answers]: what a prompt resolves to.
    [JSymbol] is the cancel symbol of the prompt library. *)
Inductive jsval : Type :=
| JUndefined
| JStr (s : string)
| JBool (b : bool)
| JSymbol (description : string).

#[global] Instance jsval_eq_dec : EqDecision jsval.
Proof. solve_decision. Defined.

(** Truthiness, as [||] and [?:] use it. A symbol is truthy. *)
Definition truthy (v : jsval) : bool :=
  match v with
  | JUndefined => false
  | JStr s => negb (String.eqb s "")
  | JBool b => b
  | JSymbol _ => true
  end.

(** [a || b] *)
Definition js_or (a b : jsval) : jsval := if truthy a then a else b.

(** An exception value: its message. *)
Inductive js_error : Type := JsError (message : string).

(** String conversion inside a template literal; a symbol throws. *)
Definition to_template_string (v : jsval) : js_error + string :=
  match v with
  | JUndefined => inr "undefined"
  | JStr s => inr s
  | JBool true => inr "true"
  | JBool false => inr "false"
  | JSymbol _ => inl (JsError "Cannot convert a Symbol value to a string")
  end.

(* ===================================================================== *)
(** * [path]: the POSIX [join], [normalize] and [dirname] of Node.js      *)
(* ===================================================================== *)

Module path.
Import JsString.

Definition slash : ascii := "/"%char.

(** One segment through Node's [normalizeString]: the stack [res] holds
    the kept segments, last one first. An empty segment or [.] is
    dropped; [..] removes the last kept segment unless there is none or it
    is itself [..], in which case it is kept only when the path may climb
    above its root. *)
Definition normalize_segment (allowAboveRoot : bool)
    (res : list string) (seg : string) : list string :=
  if String.eqb seg "" || String.eqb seg "." then res
  else if String.eqb seg ".." then
    match res with
    | top :: res' =>
        if String.eqb top ".." then
          (if allowAboveRoot then seg :: res else res)
        else res'
    | [] => if allowAboveRoot then [seg] else []
    end
  else seg :: res.

Definition normalizeString (allowAboveRoot : bool) (p : string) : string :=
  String.concat "/"
    (rev (fold_left (normalize_segment allowAboveRoot) (split slash p) [])).

Definition normalize (p : string) : string :=
  if String.eqb p "" then "."
  else
    let isAbsolute := startsWith "/" p in
    let trailingSeparator := endsWith_char slash p in
    let q := normalizeString (negb isAbsolute) p in
    if String.eqb q "" then
      (if isAbsolute then "/" else if trailingSeparator then "./" else ".")
    else
      let q' := if trailingSeparator then q +:+ "/" else q in
      if isAbsolute then "/" +:+ q' else q'.

(** The loop of [join]: zero-length arguments are skipped, the others are
    glued with [/]. [None] is [joined === undefined]. *)
Definition join_step (joined : option string) (arg : string) : option string :=
  if String.eqb arg "" then joined
  else match joined with
       | None => Some arg
       | Some j => Some (j +:+ "/" +:+ arg)
       end.

Definition join (args : list string) : string :=
  match fold_left join_step args None with
  | None => "."
  | Some joined => normalize joined
  end.

(** The backwards scan of [dirname] over the characters after the first,
    given last one first: [Some r] when a separator that ends a directory
    part is found, [r] being what precedes it (still reversed). *)
Fixpoint dirname_scan (matchedSlash : bool) (rev_tail : string) : option string :=
  match rev_tail with
  | EmptyString => None
  | String c r =>
      if Ascii.eqb c slash then
        (if matchedSlash then dirname_scan true r else Some r)
      else dirname_scan false r
  end.

Definition dirname (p : string) : string :=
  match p with
  | EmptyString => "."
  | String c0 tail =>
      let hasRoot := Ascii.eqb c0 slash in
      match dirname_scan true (String.rev tail) with
      | None => if hasRoot then "/" else "."
      | Some EmptyString => if hasRoot then "//" else String c0 EmptyString
      | Some r => String c0 (String.rev r)
      end
  end.

(** A segment that [normalize] keeps as it is. *)
Definition plain_segment (s : string) : bool :=
  negb (String.eqb s "") && negb (String.eqb s ".")
  && negb (String.eqb s "..") && negb (has_char slash s).

End path.

(** Every segment of the list is one that [normalize] keeps. *)
Definition all_plain (segs : list string) : Prop :=
  Forall (fun seg => path.plain_segment seg = true) segs.

(* ===================================================================== *)
(** * The constants and the four templates                                *)
(* ===================================================================== *)

Definition HttpMethod : list string := ["GET"; "POST"; "PUT"; "PATCH"; "DELETE"].

(** A template: a name, a description and its rendering function. *)
Record Template : Type := {
  name : string;
  description : string;
  getContent : string -> string -> bool -> string
}.

Definition basic_getContent (method routeName : string) (useTypeScript : bool) : string :=
  "
import { "
  +:+ (if useTypeScript then "NextRequest, " else "")
  +:+ "NextResponse } from 'next/server';

export async function "
  +:+ method
  +:+ "(request"
  +:+ (if useTypeScript then ": NextRequest" else "")
  +:+ ") {
  return NextResponse.json({ message: 'Hello from "
  +:+ routeName
  +:+ "!' }, { status: 200 });
}
".

Definition basic : Template :=
  {| name := "Basic";
     description := "A simple API route with a JSON response";
     getContent := basic_getContent |}.

Definition withParams_getContent (method routeName : string) (useTypeScript : bool) : string :=
  "
import { "
  +:+ (if useTypeScript then "NextRequest, " else "")
  +:+ "NextResponse } from 'next/server';

export async function "
  +:+ method
  +:+ "(request"
  +:+ (if useTypeScript then ": NextRequest" else "")
  +:+ ", { params }"
  +:+ (if useTypeScript then ": { params: { [key: string]: string } }" else "")
  +:+ ") {
  const queryParams = request.nextUrl.searchParams
  return NextResponse.json({
    message: 'Hello from "
  +:+ routeName
  +:+ "!',
    pathParams: params,
    queryParams,
  });
}
".

Definition withParams : Template :=
  {| name := "With Params";
     description := "An API route that handles path and query parameters";
     getContent := withParams_getContent |}.

Definition withErrorHandling_getContent (method routeName : string) (useTypeScript : bool) : string :=
  "
import { "
  +:+ (if useTypeScript then "NextRequest, " else "")
  +:+ "NextResponse } from 'next/server';

export async function "
  +:+ method
  +:+ "(request"
  +:+ (if useTypeScript then ": NextRequest" else "")
  +:+ ") {
  try {
    // Your logic here
    return NextResponse.json({ message: 'Hello from "
  +:+ routeName
  +:+ "!' }, { status: 200 });
  } catch (error) {
    console.error('Error in "
  +:+ routeName
  +:+ ":', error);
    return NextResponse.json({ error: 'Internal Server Error' }, { status: 500 });
  }
}
".

Definition withErrorHandling : Template :=
  {| name := "With Error Handling";
     description := "An API route with built-in error handling";
     getContent := withErrorHandling_getContent |}.

Definition withValidation_getContent (method routeName : string) (useTypeScript : bool) : string :=
  "
import { "
  +:+ (if useTypeScript then "NextRequest, " else "")
  +:+ "NextResponse } from 'next/server';
import { z } from 'zod';

const schema = z.object({
  name: z.string().min(1),
  email: z.string().email(),
});

export async function "
  +:+ method
  +:+ "(request"
  +:+ (if useTypeScript then ": NextRequest" else "")
  +:+ ") {
  try {
    const body = await request.json();
    const validatedData = schema.parse(body);
    return NextResponse.json({ message: 'Data validated successfully', data: validatedData });
  } catch (error) {
    if (error instanceof z.ZodError) {
      return NextResponse.json({ error: 'Validation failed', details: error.errors }, { status: 400 });
    }
    console.error('Error in "
  +:+ routeName
  +:+ ":', error);
    return NextResponse.json({ error: 'Internal Server Error' }, { status: 500 });
  }
}
".

Definition withValidation : Template :=
  {| name := "With Validation";
     description := "An API route with request body validation";
     getContent := withValidation_getContent |}.

(** The [templates] object, in the order of its keys. *)
Definition templates : list (string * Template) :=
  [("basic", basic); ("withParams", withParams);
   ("withErrorHandling", withErrorHandling); ("withValidation", withValidation)].

Definition template_keys : list string := map fst templates.

(** [templates[key]]: [None] is [undefined]. Only a string names a key. *)
Fixpoint lookup_template (key : string) (l : list (string * Template)) : option Template :=
  match l with
  | [] => None
  | (k, t) :: l' => if String.eqb k key then Some t else lookup_template key l'
  end.

Definition templates_at (key : jsval) : option Template :=
  match to_template_string key with
  | inr k => lookup_template k templates
  | inl _ => None
  end.

(* ===================================================================== *)
(** * The environment: working directory, file system, terminal           *)
(* ===================================================================== *)

Inductive fs_op : Type :=
| OpMkdir (dir : string)
| OpWriteFile (file : string) (data : string).

(** The regular files (path to content) and the directories on disk. *)
Record fs_state : Type := {
  files : gmap string string;
  dirs : gset string
}.

(** What the program cannot decide: the working directory at start-up,
    which operations the file system refuses (permission denied, a
    read-only volume, a file in the way, ...) and with which exception, and
    how the elapsed time prints. A refusal is an operation that throws before
    it has touched the disk; an operation that throws half-way (a write that
    runs out of space after the file was opened and truncated) is outside the
    model. *)
Record env : Type := {
  cwd : string;
  fs_fault : fs_state -> fs_op -> option js_error;
  elapsed : string
}.

(** What reaches the terminal. *)
Inductive event : Type :=
| ConsoleClear
| SpinnerStart (msg : string)
| SpinnerStop (msg : string)
| Intro (msg : string)
| LogStep (msg : string)
| Asked (message : string) (initialValue : jsval)
| ValidationError (msg : string)
| CancelNotice (msg : string)
| ConsoleLog (msg : string)
| ConsoleError (msg : string) (err : js_error)
| Outro (msg : string).

#[global] Instance js_error_eq_dec : EqDecision js_error.
Proof. solve_decision. Defined.

#[global] Instance event_eq_dec : EqDecision event.
Proof. solve_decision. Defined.

Definition defaultConfig_useTypeScript : jsval := JBool false.
Definition defaultConfig_baseDir (w : env) : jsval := JStr (cwd w).

(** ** Code that touches the disk and may throw *)

Definition Fs (A : Type) : Type := fs_state -> fs_state * (js_error + A).

Definition ret {A} (a : A) : Fs A := fun fs => (fs, inr a).
Definition throw {A} (e : js_error) : Fs A := fun fs => (fs, inl e).
Definition bind {A B} (m : Fs A) (k : A -> Fs B) : Fs B :=
  fun fs => match m fs with
            | (fs', inr a) => k a fs'
            | (fs', inl e) => (fs', inl e)
            end.
Definition lift {A} (r : js_error + A) : Fs A := fun fs => (fs, r).

Notation "x <- m ;; k" := (bind m (fun x => k))
  (at level 100, m at next level, right associativity).
Notation "m ;;; k" := (bind m (fun _ => k))
  (at level 100, right associativity).

(** The directories [mkdir -p dir] makes sure exist: [dir] and every
    directory above it. *)
Fixpoint dir_chain (fuel : nat) (dir : string) : list string :=
  match fuel with
  | O => [dir]
  | S fuel' =>
      let up := path.dirname dir in
      if String.eqb up dir then [dir] else dir :: dir_chain fuel' up
  end.

(** [fs.mkdirSync(dir, { recursive: true })]: refused, or every missing
    directory of the chain is made. *)
Definition mkdirSync (w : env) (dir : string) : Fs unit :=
  fun fs =>
    match fs_fault w fs (OpMkdir dir) with
    | Some e => (fs, inl e)
    | None =>
        ({| files := files fs;
            dirs := list_to_set (dir_chain (String.length dir) dir) ∪ dirs fs |},
         inr tt)
    end.

(** [fs.writeFileSync(file, data)]: refused, or the file then holds
    exactly [data]. *)
Definition writeFileSync (w : env) (file data : string) : Fs unit :=
  fun fs =>
    match fs_fault w fs (OpWriteFile file data) with
    | Some e => (fs, inl e)
    | None => ({| files := <[file := data]> (files fs); dirs := dirs fs |}, inr tt)
    end.

(* ===================================================================== *)
(** * The emitter: [generateApiRoute]                                     *)
(* ===================================================================== *)

Record Config : Type := { method : jsval; template : option Template }.
Record Options : Type := { useTypeScript : jsval; baseDir : jsval }.

(** A parameter default applies when the property is [undefined]. *)
Definition or_default (v d : jsval) : jsval :=
  match v with JUndefined => d | _ => v end.

Definition type_error (msg : string) : js_error := JsError ("TypeError: " +:+ msg).

(** [routeName.split('/')]: only a string has the method. *)
Definition routeParts_of (routeName : jsval) : js_error + list string :=
  match routeName with
  | JStr s => inr (JsString.split "/" s)
  | _ => inl (type_error "routeName.split is not a function")
  end.

(** [path.join] checks that each argument is a string. *)
Definition checked_path (v : jsval) : js_error + string :=
  match v with
  | JStr s => inr s
  | _ => inl (type_error "The path argument must be of type string")
  end.

Definition extension_of (useTypeScript : jsval) : string :=
  if truthy useTypeScript then "ts" else "js".

(** The destination, lines 94 to 98. *)
Definition filePath_of (w : env) (routeName : jsval) (options : Options)
  : js_error + string :=
  let useTypeScript := or_default (useTypeScript options) defaultConfig_useTypeScript in
  let baseDir := or_default (baseDir options) (defaultConfig_baseDir w) in
  let extension := extension_of useTypeScript in
  match routeParts_of routeName with
  | inl e => inl e
  | inr routeParts =>
      match checked_path baseDir with
      | inl e => inl e
      | inr base =>
          inr (path.join (base :: "app" :: "api" :: routeParts
                          ++ ["route." +:+ extension]))
      end
  end.

(** The rendered text, line 100. *)
Definition content_of (routeName : jsval) (config : Config) (options : Options)
  : js_error + string :=
  let useTypeScript := or_default (useTypeScript options) defaultConfig_useTypeScript in
  match template config with
  | None => inl (type_error "Cannot read properties of undefined (reading 'getContent')")
  | Some t =>
      match to_template_string (method config) with
      | inl e => inl e
      | inr m =>
          match to_template_string routeName with
          | inl e => inl e
          | inr r => inr (getContent t m r (truthy useTypeScript))
          end
      end
  end.

(** The body of the [try] block; its value is the path written. *)
Definition try_generate (w : env) (routeName : jsval) (config : Config)
    (options : Options) : Fs string :=
  filePath <- lift (filePath_of w routeName options) ;;
  content <- lift (content_of routeName config options) ;;
  mkdirSync w (path.dirname filePath) ;;;
  writeFileSync w filePath content ;;;
  ret filePath.

Definition check_mark : string := JsString.bytes [226; 156; 133].
Definition cross_mark : string := JsString.bytes [226; 157; 140].

Definition generated_message (w : env) (filePath : string) : string :=
  check_mark +:+ " API route handler generated: " +:+ filePath
  +:+ " (" +:+ elapsed w +:+ "ms)".

Definition error_message (routeName : string) : string :=
  cross_mark +:+ " Error generating API route handler " +:+ routeName +:+ ":".

(** What a call of [generateApiRoute] leaves behind: the disk, what it
    printed, and the exception that escapes it, if one does (the [catch]
    block itself builds its message from [routeName]). *)
Record emission : Type := {
  disk_after : fs_state;
  printed : list event;
  escaped : option js_error
}.

Definition generateApiRoute (w : env) (routeName : jsval) (config : Config)
    (options : Options) (fs : fs_state) : emission :=
  match try_generate w routeName config options fs with
  | (fs', inr filePath) =>
      {| disk_after := fs';
         printed := [ConsoleLog (generated_message w filePath)];
         escaped := None |}
  | (fs', inl error) =>
      match to_template_string routeName with
      | inr r =>
          {| disk_after := fs';
             printed := [ConsoleError (error_message r) error];
             escaped := None |}
      | inl e => {| disk_after := fs'; printed := []; escaped := Some e |}
      end
  end.

(* ===================================================================== *)
(** * The prompt wizard: the loop of [main]                               *)
(* ===================================================================== *)

(** The five entries of [steps]. The loop switches on the entry's text;
    here the entry is a constructor and [label] gives its text back. *)
Inductive Step : Type :=
| RouteName | HttpMethodStep | TemplateStep | TypeScript | BaseDirectory.

#[global] Instance Step_eq_dec : EqDecision Step.
Proof. solve_decision. Defined.

Definition label (step : Step) : string :=
  match step with
  | RouteName => "Route Name"
  | HttpMethodStep => "HTTP Method"
  | TemplateStep => "Template"
  | TypeScript => "TypeScript"
  | BaseDirectory => "Base Directory"
  end.

Definition steps : list Step :=
  [RouteName; HttpMethodStep; TemplateStep; TypeScript; BaseDirectory].

(** [step.toLowerCase().replace(' ', '')] *)
Definition answer_key (step : Step) : string :=
  JsString.replace " " "" (JsString.toLowerCase (label step)).

(** [answers.k]: a missing property reads as [undefined]. *)
Definition get (answers : gmap string jsval) (k : string) : jsval :=
  default JUndefined (answers !! k).

(** ** The prompt widgets

    Modelled from the contract of the prompt library: a text prompt shows
    the validator's message and stays open when the validator returns one;
    a select prompt resolves to the value of one of its options; a confirm
    prompt to a boolean; each resolves to the cancel symbol when the user
    interrupts it. Input that a widget has no use for is ignored. *)

Inductive widget : Type :=
| TextPrompt (message : string) (validate : string -> option string)
    (initialValue : jsval)
| SelectPrompt (message : string) (options : list (string * string))
    (initialValue : jsval)
| ConfirmPrompt (message : string) (initialValue : jsval).

Inductive user_input : Type :=
| Interrupt
| Enter (text : string)
| Choose (value : string)
| YesNo (b : bool).

Inductive prompt_outcome : Type :=
| Resolved (answer : jsval)
| Rejected (error : string)
| Ignored.

Definition cancel_symbol : jsval := JSymbol "clack:cancel".

Definition isCancel (v : jsval) : bool := bool_decide (v = cancel_symbol).

Definition respond (p : widget) (i : user_input) : prompt_outcome :=
  match i, p with
  | Interrupt, _ => Resolved cancel_symbol
  | Enter text, TextPrompt _ validate _ =>
      match validate text with
      | Some error => Rejected error
      | None => Resolved (JStr text)
      end
  | Choose value, SelectPrompt _ options _ =>
      if bool_decide (value ∈ map fst options) then Resolved (JStr value)
      else Ignored
  | YesNo b, ConfirmPrompt _ _ => Resolved (JBool b)
  | _, _ => Ignored
  end.

Definition widget_message (p : widget) : string :=
  match p with
  | TextPrompt m _ _ | SelectPrompt m _ _ | ConfirmPrompt m _ => m
  end.

Definition widget_initialValue (p : widget) : jsval :=
  match p with
  | TextPrompt _ _ v | SelectPrompt _ _ v | ConfirmPrompt _ v => v
  end.

(** ** The body of the loop *)

(** The validator of the route name, lines 136 to 139. *)
Definition validate_routeName (value : string) : option string :=
  if String.eqb (JsString.trim value) "" then Some "Route name cannot be empty"
  else None.

Definition no_validate (value : string) : option string := None.

Definition go_back : string * string := ("back", "Go back").

(** The [switch]: the prompt opened for a step. *)
Definition prompt_for (w : env) (step : Step) (answers : gmap string jsval) : widget :=
  match step with
  | RouteName =>
      TextPrompt "Enter the route name (e.g., users/[id]):"
        validate_routeName
        (js_or (get answers "routename") (JStr ""))
  | HttpMethodStep =>
      SelectPrompt "Select the HTTP method:"
        (map (fun m => (m, m)) HttpMethod ++ [go_back])
        (get answers "httpmethod")
  | TemplateStep =>
      SelectPrompt "Choose a template:"
        (map (fun kt => (fst kt, name (snd kt) +:+ " - " +:+ description (snd kt)))
             templates ++ [go_back])
        (get answers "template")
  | TypeScript =>
      ConfirmPrompt "Use TypeScript?"
        (match get answers "typescript" with
         | JUndefined => defaultConfig_useTypeScript
         | v => v
         end)
  | BaseDirectory =>
      TextPrompt "Enter the base directory (leave empty for current directory):"
        no_validate
        (js_or (get answers "basedirectory") (defaultConfig_baseDir w))
  end.

(** Lines 185 to 190: what an answer that is not the cancel symbol does to
    the cursor and to [answers]. *)
Definition navigate (step : Step) (answer : jsval) (currentStep : nat)
    (answers : gmap string jsval) : nat * gmap string jsval :=
  if bool_decide (answer = JStr "back") then
    (Nat.max 0 (currentStep - 1), answers)
  else
    (currentStep + 1, <[answer_key step := answer]> answers).

(** What an iteration prints before it waits: the step banner and the
    prompt. Nothing when the loop is over. *)
Definition announce (w : env) (currentStep : nat) (answers : gmap string jsval)
  : list event :=
  match steps !! currentStep with
  | None => []
  | Some step =>
      let p := prompt_for w step answers in
      [LogStep (JsString.of_nat (currentStep + 1) +:+ ". " +:+ label step);
       Asked (widget_message p) (widget_initialValue p)]
  end.

Inductive wizard_outcome : Type :=
| Pending (currentStep : nat) (answers : gmap string jsval)
| Cancelled
| Completed (answers : gmap string jsval).

(** The loop, from the moment the prompt of [currentStep] is open. Each
    input of the script is one submission; [Pending] is the loop still
    waiting at a prompt when the script ends. *)
Fixpoint wizard (w : env) (script : list user_input) (currentStep : nat)
    (answers : gmap string jsval) : wizard_outcome * list event :=
  match steps !! currentStep with
  | None => (Completed answers, [])
  | Some step =>
      match script with
      | [] => (Pending currentStep answers, [])
      | i :: script' =>
          match respond (prompt_for w step answers) i with
          | Ignored => wizard w script' currentStep answers
          | Rejected error =>
              let '(o, out) := wizard w script' currentStep answers in
              (o, ValidationError error :: out)
          | Resolved answer =>
              if isCancel answer then
                (Cancelled, [CancelNotice "Operation cancelled."])
              else
                let '(c, a) := navigate step answer currentStep answers in
                let '(o, out) := wizard w script' c a in
                (o, announce w c a ++ out)
          end
      end
  end.

(* ===================================================================== *)
(** * The program: [main] and the handler of its rejection                *)
(* ===================================================================== *)

Record run : Type := {
  exit_code : option Z;      (* [None]: still waiting for input *)
  terminal : list event;
  disk : fs_state
}.

Definition greeting : list event :=
  [ConsoleClear;
   SpinnerStart "Initializing Next.js API Route Generator";
   SpinnerStop "Next.js API Route Generator initialized";
   Intro ("Welcome to the Next.js API Route Generator!" +:+ JsString.nl
          +:+ "Create API routes with ease for your Next.js application.")].

Definition farewell : list event :=
  [SpinnerStop "API route generated successfully";
   Outro ("API route generation complete!" +:+ JsString.nl
          +:+ "Your new API route is ready to use.")].

Definition config_of (answers : gmap string jsval) : Config :=
  {| method := get answers "httpmethod";
     template := templates_at (get answers "template") |}.

Definition options_of (w : env) (answers : gmap string jsval) : Options :=
  {| useTypeScript := get answers "typescript";
     baseDir := js_or (get answers "basedirectory") (defaultConfig_baseDir w) |}.

Definition main (w : env) (script : list user_input) (fs : fs_state) : run :=
  let start := greeting ++ announce w 0 ∅ in
  match wizard w script 0 ∅ with
  | (Pending _ _, out) =>
      {| exit_code := None; terminal := start ++ out; disk := fs |}
  | (Cancelled, out) =>
      {| exit_code := Some 0%Z; terminal := start ++ out; disk := fs |}
  | (Completed answers, out) =>
      let g := generateApiRoute w (get answers "routename") (config_of answers)
                 (options_of w answers) fs in
      match escaped g with
      | None =>
          {| exit_code := Some 0%Z;
             terminal := start ++ out ++ [SpinnerStart "Generating API route"]
                         ++ printed g ++ farewell;
             disk := disk_after g |}
      | Some error =>
          {| exit_code := Some 1%Z;
             terminal := start ++ out ++ [SpinnerStart "Generating API route"]
                         ++ printed g ++ [ConsoleError "An error occurred:" error];
             disk := disk_after g |}
      end
  end.

(** ** Small runs *)

Definition empty_disk : fs_state := {| files := ∅; dirs := ∅ |}.

Definition quiet_env : env :=
  {| cwd := "/home/dev/project"; fs_fault := fun _ _ => None; elapsed := "1.25" |}.

Definition denied : js_error := JsError "EACCES: permission denied".

Definition readonly_env : env :=
  {| cwd := "/home/dev/project"; fs_fault := fun _ _ => Some denied;
     elapsed := "1.25" |}.

Definition happy_script : list user_input :=
  [Enter "users/[id]"; Choose "GET"; Choose "basic"; YesNo false; Enter "/tmp/x"].

(** ** Vocabulary of the statements about rendered text *)

(** [s.endsWith(suffix)] *)
Fixpoint endsWith (suffix s : string) : bool :=
  if String.eqb s suffix then true
  else match s with
       | EmptyString => false
       | String _ s' => endsWith suffix s'
       end.

(** [first] occurs in [s], and [second] occurs after that occurrence. *)
Definition occurs_then (first second s : string) : Prop :=
  exists a b c, s = a +:+ first +:+ b +:+ second +:+ c.

(** The head of an exported handler named [m]. *)
Definition handler_head (m : string) : string :=
  "export async function " +:+ m +:+ "(request".

(** The two error branches of the validating template. *)
Definition validation_branch : string :=
  "if (error instanceof z.ZodError) {
      return NextResponse.json({ error: 'Validation failed', details: error.errors }, { status: 400 });
    }".

Definition failure_branch : string :=
  "return NextResponse.json({ error: 'Internal Server Error' }, { status: 500 });".

(** The file system refuses nothing. *)
Definition no_faults (w : env) : Prop := forall fs op, fs_fault w fs op = None.

(** ** Well-formed answers *)

(** The answer stored for a step has the type and the range its prompt
    allows. *)
Definition answered (step : Step) (answers : gmap string jsval) : Prop :=
  match step with
  | RouteName =>
      exists s, answers !! "routename" = Some (JStr s)
                /\ JsString.trim s <> "" /\ s <> "back"
  | HttpMethodStep =>
      exists m, answers !! "httpmethod" = Some (JStr m) /\ In m HttpMethod
  | TemplateStep =>
      exists k, answers !! "template" = Some (JStr k) /\ In k template_keys
  | TypeScript =>
      exists b, answers !! "typescript" = Some (JBool b)
  | BaseDirectory =>
      exists s, answers !! "basedirectory" = Some (JStr s) /\ s <> "back"
  end.

(** Every step before the cursor has a well-formed answer. *)
Definition answered_before (currentStep : nat) (answers : gmap string jsval) : Prop :=
  forall i step, i < currentStep -> steps !! i = Some step -> answered step answers.

(** No property of [answers] holds the string [back]. *)
Definition back_free (answers : gmap string jsval) : Prop :=
  forall k, answers !! k <> Some (JStr "back").

(** The answers an outcome carries ([∅] after a cancellation). *)
Definition answers_of (o : wizard_outcome) : gmap string jsval :=
  match o with
  | Pending _ a | Completed a => a
  | Cancelled => ∅
  end.

(** A file system on which directories can be made but no file written. *)
Definition write_protected_env : env :=
  {| cwd := "/home/dev/project";
     fs_fault := fun _ op =>
       match op with OpWriteFile _ _ => Some denied | OpMkdir _ => None end;
     elapsed := "1.25" |}.

(** The property names under which the loop stores its answers. *)
Definition answer_keys_set : gset string := list_to_set (map answer_key steps).

(* ===================================================================== *)
(** * The model at work                                                   *)
(* ===================================================================== *)

Example split_route : JsString.split "/" "users/[id]" = ["users"; "[id]"].
Proof. reflexivity. Qed.

Example join_example :
  path.join ["/tmp/x"; "app"; "api"; "users"; "[id]"; "route.js"]
  = "/tmp/x/app/api/users/[id]/route.js".
Proof. reflexivity. Qed.

Example join_dotdot :
  path.join ["/tmp/x"; "app"; "api"; "a"; ".."; "b"; "route.js"]
  = "/tmp/x/app/api/b/route.js".
Proof. reflexivity. Qed.

Example dirname_example :
  path.dirname "/tmp/x/app/api/users/[id]/route.js" = "/tmp/x/app/api/users/[id]".
Proof. reflexivity. Qed.

Example trim_blank : JsString.trim "   " = "".
Proof. reflexivity. Qed.

Example trim_word : JsString.trim "  users/[id] " = "users/[id]".
Proof. reflexivity. Qed.

Example answer_keys :
  map answer_key steps
  = ["routename"; "httpmethod"; "template"; "typescript"; "basedirectory"].
Proof. reflexivity. Qed.

Example happy_run_exit : exit_code (main quiet_env happy_script empty_disk) = Some 0%Z.
Proof. reflexivity. Qed.

Example happy_run_files :
  files (disk (main quiet_env happy_script empty_disk))
  = {[ "/tmp/x/app/api/users/[id]/route.js" := basic_getContent "GET" "users/[id]" false ]}.
Proof. reflexivity. Qed.

Example split_keeps_empty_pieces : JsString.split "/" "a//b/" = ["a"; ""; "b"; ""].
Proof. reflexivity. Qed.

Example join_skips_empty_pieces :
  path.join ["/tmp/x"; "app"; "api"; "a"; ""; "b"; ""; "route.ts"]
  = "/tmp/x/app/api/a/b/route.ts".
Proof. reflexivity. Qed.

Example join_relative_climbs : path.join ["a"; ".."; ".."; "b"] = "../b".
Proof. reflexivity. Qed.

Example normalize_cases :
  map path.normalize [""; "/.."; "./"; "a/"; "a/../.."; "/a//b/./c/"]
  = ["."; "/"; "./"; "a/"; ".."; "/a/b/c/"].
Proof. reflexivity. Qed.

Example dirname_cases :
  map path.dirname [""; "a"; "/a"; "/a/b/"; "a//b"; "//a"; "//"]
  = ["."; "."; "/"; "/a"; "a/"; "//"; "/"].
Proof. reflexivity. Qed.

Example trim_unicode_space :
  JsString.trim (JsString.bytes [194; 160; 9] +:+ "x" +:+ JsString.bytes [226; 128; 168])
  = "x".
Proof. reflexivity. Qed.

Example failing_run :
  exit_code (main readonly_env happy_script empty_disk) = Some 0%Z
  /\ disk (main readonly_env happy_script empty_disk) = empty_disk
  /\ ConsoleError (error_message "users/[id]") denied
     ∈ terminal (main readonly_env happy_script empty_disk).
Proof.
  split; [reflexivity|]. split; [reflexivity|].
  apply list_elem_of_In. vm_compute. tauto.
Qed.

Example back_typed_as_route_name :
  (wizard quiet_env [Enter "back"; Enter "   "; Enter "back/"] 0 ∅).1
  = Pending 1 (<["routename" := JStr "back/"]> ∅).
Proof. reflexivity. Qed.

(* ===================================================================== *)
(** * Facts about strings                                                 *)
(* ===================================================================== *)

Section StringFacts.
Import JsString.

Lemma app_cons (c : ascii) (a b : string) : String c a +:+ b = String c (a +:+ b).
Proof. reflexivity. Qed.

Lemma app_nil_l (s : string) : "" +:+ s = s.
Proof. reflexivity. Qed.

Lemma app_nil_r (s : string) : s +:+ "" = s.
Proof. induction s as [|c s IH]; [reflexivity|]. rewrite app_cons. by rewrite IH. Qed.

Lemma app_assoc (a b c : string) : (a +:+ b) +:+ c = a +:+ b +:+ c.
Proof.
  induction a as [|x a IH]; [reflexivity|].
  rewrite !app_cons. by rewrite IH.
Qed.

Lemma strip_prefix_app (p r : string) : strip_prefix p (p +:+ r) = Some r.
Proof.
  induction p as [|a p IH]; [reflexivity|].
  rewrite app_cons. simpl. by rewrite Ascii.eqb_refl.
Qed.

Lemma strip_prefix_Some (p s r : string) : strip_prefix p s = Some r -> s = p +:+ r.
Proof.
  revert s. induction p as [|a p IH]; intros s H.
  - simpl in H. by inversion H.
  - destruct s as [|b s]; simpl in H; [discriminate|].
    destruct (Ascii.eqb_spec a b) as [->|]; [|discriminate].
    rewrite app_cons. f_equal. by apply IH.
Qed.

(** [includes] decides [occurs_in]. *)
Lemma includes_occurs (needle s : string) :
  includes needle s = true <-> occurs_in needle s.
Proof.
  split.
  - induction s as [|c s IH]; simpl; unfold startsWith.
    + destruct (strip_prefix needle "") as [r|] eqn:E; [|discriminate].
      intros _. exists "", r. rewrite app_nil_l. by apply strip_prefix_Some.
    + destruct (strip_prefix needle (String c s)) as [r|] eqn:E.
      * intros _. exists "", r. rewrite app_nil_l. by apply strip_prefix_Some.
      * intros H. destruct (IH H) as (b & a & ->).
        exists (String c b), a. reflexivity.
  - intros (b & a & ->). induction b as [|c b IH].
    + rewrite app_nil_l.
      assert (startsWith needle (needle +:+ a) = true) as Hs
        by (unfold startsWith; by rewrite strip_prefix_app).
      destruct (needle +:+ a); simpl; by rewrite Hs.
    + rewrite app_cons. simpl. rewrite IH. by destruct (startsWith _ _).
Qed.

Lemma occurs_in_here (needle after : string) : occurs_in needle (needle +:+ after).
Proof. exists "", after. reflexivity. Qed.

Lemma occurs_in_app_r (needle a s : string) :
  occurs_in needle s -> occurs_in needle (a +:+ s).
Proof.
  intros (b & r & ->). exists (a +:+ b), r. by rewrite app_assoc.
Qed.

Lemma split_nonempty (sep : ascii) (s : string) : split sep s <> [].
Proof.
  destruct s as [|c s]; simpl; [done|].
  destruct (Ascii.eqb c sep); [done|]. by destruct (split sep s).
Qed.

Lemma split_app_sep (sep : ascii) (a b : string) :
  split sep (a +:+ String sep b) = split sep a ++ split sep b.
Proof.
  induction a as [|c a IH].
  - rewrite app_nil_l. simpl. by rewrite Ascii.eqb_refl.
  - rewrite app_cons. simpl. destruct (Ascii.eqb c sep).
    + by rewrite IH.
    + rewrite IH. pose proof (split_nonempty sep a).
      by destruct (split sep a).
Qed.

Lemma split_no_sep (sep : ascii) (s : string) :
  has_char sep s = false -> split sep s = [s].
Proof.
  induction s as [|c s IH]; simpl; [done|].
  intros [Hc Hs]%orb_false_elim. rewrite Hc. by rewrite IH.
Qed.

(** The pieces of a split do not contain the separator. *)
Lemma split_pieces (sep : ascii) (s : string) :
  Forall (fun seg => has_char sep seg = false) (split sep s).
Proof.
  induction s as [|c s IH]; simpl.
  - by constructor.
  - destruct (Ascii.eqb c sep) eqn:E.
    + by constructor.
    + destruct (split sep s) as [|seg segs].
      * constructor; [|done]. simpl. by rewrite E.
      * inversion IH as [|? ? Hseg Hsegs]; subst. constructor; [|done].
        simpl. by rewrite E.
Qed.

(** Gluing the pieces back with the separator gives the string. *)
Lemma concat_cons2 (sep x y : string) (l : list string) :
  String.concat sep (x :: y :: l) = x +:+ sep +:+ String.concat sep (y :: l).
Proof. reflexivity. Qed.

Lemma concat_split (sep : ascii) (s : string) :
  String.concat (String sep "") (split sep s) = s.
Proof.
  induction s as [|c s IH]; simpl; [done|].
  pose proof (split_nonempty sep s) as Hne.
  destruct (Ascii.eqb_spec c sep) as [->|];
    destruct (split sep s) as [|seg segs]; try done.
  - rewrite concat_cons2, IH. reflexivity.
  - destruct segs as [|seg' segs].
    + simpl in *. by rewrite IH.
    + rewrite concat_cons2 in *. rewrite app_cons. by rewrite IH.
Qed.

Lemma concat_app (sep : string) (l1 l2 : list string) :
  l1 <> [] -> l2 <> [] ->
  String.concat sep (l1 ++ l2)
  = String.concat sep l1 +:+ sep +:+ String.concat sep l2.
Proof.
  intros H1 H2. induction l1 as [|x l1 IH]; [done|].
  destruct l1 as [|y l1].
  - destruct l2; [done|]. reflexivity.
  - change ((x :: y :: l1) ++ l2) with (x :: (y :: l1) ++ l2).
    change ((y :: l1) ++ l2) with (y :: l1 ++ l2) at 1.
    rewrite !concat_cons2. change (y :: l1 ++ l2) with ((y :: l1) ++ l2).
    rewrite IH by done. by rewrite !app_assoc.
Qed.

Lemma split_concat (sep : ascii) (l : list string) :
  l <> [] -> Forall (fun seg => has_char sep seg = false) l ->
  split sep (String.concat (String sep "") l) = l.
Proof.
  intros Hne Hl. induction Hl as [|x l Hx Hl IH]; [done|].
  destruct l as [|y l].
  - simpl. by apply split_no_sep.
  - rewrite concat_cons2. rewrite app_cons, app_nil_l.
    rewrite split_app_sep, IH by done. by rewrite split_no_sep.
Qed.

Lemma last_char_app (a b : string) : b <> "" -> last_char (a +:+ b) = last_char b.
Proof.
  intros Hb. induction a as [|c a IH]; [done|].
  rewrite app_cons. simpl. rewrite IH.
  destruct (a +:+ b) eqn:E; [|done].
  destruct a; [|discriminate]. by rewrite app_nil_l in E.
Qed.

Lemma last_char_has (c : ascii) (s : string) :
  last_char s = Some c -> has_char c s = true.
Proof.
  induction s as [|a s IH]; simpl; [done|].
  destruct s as [|b s].
  - intros [= ->]. by rewrite Ascii.eqb_refl.
  - intros H. rewrite IH by done. by rewrite orb_true_r.
Qed.

Lemma endsWith_char_app (c : ascii) (a b : string) :
  b <> "" -> has_char c b = false -> endsWith_char c (a +:+ b) = false.
Proof.
  intros Hb Hc. unfold endsWith_char. rewrite last_char_app by done.
  destruct (last_char b) as [x|] eqn:E; [|done].
  destruct (Ascii.eqb_spec x c) as [->|]; [|done].
  apply last_char_has in E. congruence.
Qed.

End StringFacts.

(* ===================================================================== *)
(** * Facts about paths                                                   *)
(* ===================================================================== *)

Section PathFacts.
Import JsString.

Lemma plain_segment_spec (s : string) :
  path.plain_segment s = true ->
  s <> "" /\ s <> "." /\ s <> ".." /\ has_char path.slash s = false.
Proof.
  unfold path.plain_segment. rewrite !andb_true_iff, !negb_true_iff.
  rewrite !String.eqb_neq. tauto.
Qed.

Lemma normalize_segment_plain (above : bool) (res : list string) (seg : string) :
  path.plain_segment seg = true ->
  path.normalize_segment above res seg = seg :: res.
Proof.
  intros (H1 & H2 & H3 & _)%plain_segment_spec. unfold path.normalize_segment.
  apply String.eqb_neq in H1, H2, H3. by rewrite H1, H2, H3.
Qed.

Lemma normalize_segments_plain (above : bool) (segs res : list string) :
  all_plain segs ->
  fold_left (path.normalize_segment above) segs res = rev segs ++ res.
Proof.
  intros H. revert res. induction H as [|seg segs Hseg _ IH]; intros res; [done|].
  simpl. rewrite normalize_segment_plain, IH by done.
  by rewrite <- List.app_assoc.
Qed.

Lemma join_steps (joined : string) (args : list string) :
  Forall (fun arg => arg <> "") args ->
  fold_left path.join_step args (Some joined)
  = Some (String.concat "/" (joined :: args)).
Proof.
  intros H. revert joined. induction H as [|arg args Harg _ IH]; intros joined.
  - reflexivity.
  - simpl. unfold path.join_step at 2. apply String.eqb_neq in Harg.
    rewrite Harg, IH. f_equal. destruct args as [|y l].
    + reflexivity.
    + rewrite !concat_cons2. by rewrite !app_assoc.
Qed.

Lemma concat_ends (sep : string) (l : list string) (x : string) :
  exists a, String.concat sep (l ++ [x]) = a +:+ x.
Proof.
  destruct l as [|y l].
  - exists "". reflexivity.
  - exists (String.concat sep (y :: l) +:+ sep).
    rewrite concat_app by done. by rewrite app_assoc.
Qed.

Lemma concat_not_empty (sep x : string) (l : list string) :
  x <> "" -> String.concat sep (x :: l) <> "".
Proof.
  intros Hx. destruct x as [|c x]; [done|].
  destruct l; [done|]. rewrite concat_cons2, app_cons. done.
Qed.

Lemma all_plain_no_slash (segs : list string) :
  all_plain segs -> Forall (fun seg => has_char path.slash seg = false) segs.
Proof.
  intros H. eapply Forall_impl; [exact H|].
  intros seg Hs. by apply plain_segment_spec in Hs as (_ & _ & _ & Hs).
Qed.

(** An absolute path made of plain segments is in normal form. *)
Lemma normalize_absolute_plain (segs : list string) :
  segs <> [] -> all_plain segs ->
  path.normalize ("/" +:+ String.concat "/" segs)
  = "/" +:+ String.concat "/" segs.
Proof.
  intros Hne Hplain. unfold path.normalize.
  rewrite app_cons, app_nil_l.
  change (String.eqb (String "/" (String.concat "/" segs)) "") with false.
  change (startsWith "/" (String "/" (String.concat "/" segs))) with true.
  cbv iota. cbn [negb].
  assert (endsWith_char path.slash (String "/" (String.concat "/" segs)) = false)
    as ->.
  { destruct (exists_last Hne) as (l & x & ->).
    destruct (concat_ends "/" l x) as (a & ->).
    apply Forall_app in Hplain as [_ Hx]. inversion Hx as [|? ? Hp _]; subst.
    apply plain_segment_spec in Hp as (? & _ & _ & ?).
    rewrite <- app_cons. by apply endsWith_char_app. }
  assert (path.normalizeString false (String "/" (String.concat "/" segs))
          = String.concat "/" segs) as ->.
  { unfold path.normalizeString. simpl split.
    rewrite split_concat by (done || by apply all_plain_no_slash).
    simpl fold_left. rewrite normalize_segments_plain by done.
    by rewrite List.app_nil_r, rev_involutive. }
  destruct segs as [|x l]; [done|].
  inversion Hplain as [|? ? Hp _]; subst.
  apply plain_segment_spec in Hp as (Hx & _).
  pose proof (concat_not_empty "/" x l Hx) as Hc.
  apply String.eqb_neq in Hc. by rewrite Hc.
Qed.

(** Joining an absolute base of plain segments with further plain
    segments glues them with [/] and changes nothing else. *)
Lemma join_plain (bs rs : list string) :
  bs <> [] -> rs <> [] -> all_plain bs -> all_plain rs ->
  path.join (("/" +:+ String.concat "/" bs) :: rs)
  = ("/" +:+ String.concat "/" bs) +:+ "/" +:+ String.concat "/" rs.
Proof.
  intros Hb Hr Pb Pr. unfold path.join. simpl fold_left.
  unfold path.join_step at 2. rewrite app_cons, app_nil_l.
  change (String.eqb (String "/" (String.concat "/" bs)) "") with false.
  cbv iota. rewrite join_steps.
  2:{ eapply Forall_impl; [exact Pr|]. intros seg H.
      by apply plain_segment_spec in H as (H & _). }
  assert (String.concat "/" (String "/" (String.concat "/" bs) :: rs)
          = "/" +:+ String.concat "/" (bs ++ rs)) as ->.
  { rewrite concat_app by done. destruct rs as [|r rs]; [done|].
    rewrite concat_cons2. reflexivity. }
  rewrite normalize_absolute_plain.
  - rewrite concat_app by done. reflexivity.
  - by destruct bs.
  - by apply Forall_app.
Qed.

End PathFacts.

(* ===================================================================== *)
(** * The rendered text                                                   *)
(* ===================================================================== *)

Section TemplateFacts.
Import JsString.

Lemma endsWith_spec (suffix s : string) :
  endsWith suffix s = true -> exists a, s = a +:+ suffix.
Proof.
  induction s as [|c s IH]; cbn [endsWith].
  - destruct (String.eqb_spec "" suffix) as [<-|]; [|done].
    exists "". reflexivity.
  - destruct (String.eqb_spec (String c s) suffix) as [<-|].
    + exists "". reflexivity.
    + intros [a ->]%IH. exists (String c a). reflexivity.
Qed.

Lemma occurs_in_app_l (needle s r : string) :
  occurs_in needle s -> occurs_in needle (s +:+ r).
Proof.
  intros (b & a & ->). exists b, (a +:+ r). by rewrite !app_assoc.
Qed.

(** A needle that straddles a literal, a variable and a literal. *)
Lemma occurs_in_straddle (suffix chunk mid lit rest : string) :
  endsWith suffix chunk = true ->
  occurs_in (suffix +:+ mid +:+ lit) (chunk +:+ mid +:+ lit +:+ rest).
Proof.
  intros [a ->]%endsWith_spec. exists a, rest. by rewrite !app_assoc.
Qed.

Lemma occurs_then_skip (first second a s : string) :
  occurs_then first second s -> occurs_then first second (a +:+ s).
Proof.
  intros (x & y & z & ->). exists (a +:+ x), y, z. by rewrite !app_assoc.
Qed.

Lemma occurs_then_around (first second x q y : string) :
  occurs_in first x -> occurs_in second y ->
  occurs_then first second (x +:+ q +:+ y).
Proof.
  intros (a1 & r1 & ->) (a2 & r2 & ->).
  exists a1, (r1 +:+ q +:+ a2), r2. by rewrite !app_assoc.
Qed.

Lemma occurs_then_l (first second s : string) :
  occurs_then first second s -> occurs_in first s.
Proof. intros (a & b & c & ->). by exists a, (b +:+ second +:+ c). Qed.

Lemma occurs_then_r (first second s : string) :
  occurs_then first second s -> occurs_in second s.
Proof.
  intros (a & b & c & ->). exists (a +:+ first +:+ b), c. by rewrite !app_assoc.
Qed.

(** The keys of [templates] and what each one selects. *)
Lemma lookup_template_cases (key : string) (t : Template) :
  lookup_template key templates = Some t ->
  (key = "basic" /\ t = basic) \/ (key = "withParams" /\ t = withParams)
  \/ (key = "withErrorHandling" /\ t = withErrorHandling)
  \/ (key = "withValidation" /\ t = withValidation).
Proof.
  unfold templates, lookup_template.
  repeat (match goal with
          | |- context [String.eqb ?k key] =>
              destruct (String.eqb_spec k key) as [<-|]
          end; [intros [= <-]; tauto|]).
  done.
Qed.

Lemma lookup_template_keys (key : string) :
  In key template_keys <-> is_Some (lookup_template key templates).
Proof.
  split.
  - simpl. intros [<-|[<-|[<-|[<-|[]]]]]; by eexists.
  - intros [t Ht]. apply lookup_template_cases in Ht.
    destruct Ht as [[-> _]|[[-> _]|[[-> _]|[-> _]]]]; simpl; tauto.
Qed.

Lemma handler_head_occurs (t : Template) (key m routeName : string) (ts : bool) :
  lookup_template key templates = Some t ->
  occurs_in (handler_head m) (getContent t m routeName ts).
Proof.
  intros Ht. unfold handler_head.
  apply lookup_template_cases in Ht as [[_ ->]|[[_ ->]|[[_ ->]|[_ ->]]]];
    cbn [getContent basic withParams withErrorHandling withValidation];
    unfold basic_getContent, withParams_getContent,
      withErrorHandling_getContent, withValidation_getContent;
    do 2 apply occurs_in_app_r; by apply occurs_in_straddle.
Qed.

End TemplateFacts.

(* ===================================================================== *)
(** * The emitter                                                         *)
(* ===================================================================== *)

Section EmitterFacts.
Import JsString.

Lemma try_generate_ok (w : env) (routeName : jsval) (config : Config)
    (options : Options) (fs : fs_state) (filePath content : string) :
  no_faults w ->
  filePath_of w routeName options = inr filePath ->
  content_of routeName config options = inr content ->
  try_generate w routeName config options fs
  = ({| files := <[filePath := content]> (files fs);
        dirs := list_to_set (dir_chain (String.length (path.dirname filePath))
                               (path.dirname filePath)) ∪ dirs fs |},
     inr filePath).
Proof.
  intros Hw Hp Hc. unfold try_generate, bind, lift, ret, mkdirSync, writeFileSync.
  rewrite Hp, Hc, !Hw. reflexivity.
Qed.

(** The [try] block either throws and leaves the files alone, or returns
    the destination, which then holds the rendered text. *)
Lemma try_generate_cases (w : env) (routeName : jsval) (config : Config)
    (options : Options) (fs : fs_state) :
  (exists fs' e,
      try_generate w routeName config options fs = (fs', inl e)
      /\ files fs' = files fs)
  \/ (exists fs' filePath content,
        try_generate w routeName config options fs = (fs', inr filePath)
        /\ filePath_of w routeName options = inr filePath
        /\ content_of routeName config options = inr content
        /\ files fs' = <[filePath := content]> (files fs)).
Proof.
  unfold try_generate, bind, lift, ret, mkdirSync, writeFileSync.
  destruct (filePath_of w routeName options) as [e|filePath]; [left; eauto|].
  destruct (content_of routeName config options) as [e|content]; [left; eauto|].
  destruct (fs_fault w fs _) as [e|]; [left; eauto|].
  destruct (fs_fault w _ (OpWriteFile _ _)) as [e|]; [left; eauto|].
  right. eauto 10.
Qed.

Lemma generateApiRoute_disk (w : env) (routeName : jsval) (config : Config)
    (options : Options) (fs : fs_state) :
  disk_after (generateApiRoute w routeName config options fs)
  = (try_generate w routeName config options fs).1.
Proof.
  unfold generateApiRoute.
  destruct (try_generate w routeName config options fs) as [fs' [e|p]]; [|done].
  by destruct (to_template_string routeName).
Qed.


Lemma filePath_of_join (w : env) (routeName base : string) (ts : bool) :
  filePath_of w (JStr routeName) {| useTypeScript := JBool ts; baseDir := JStr base |}
  = inr (path.join (base :: "app" :: "api" :: split "/" routeName
                    ++ ["route." +:+ (if ts then "ts" else "js")])).
Proof. unfold filePath_of, extension_of. simpl. by destruct ts. Qed.

(** With a destination and a text, the emitter fails exactly where the
    file system does, and reports it under the route name. *)
Lemma generateApiRoute_typed (w : env) (routeName : string) (config : Config)
    (options : Options) (fs : fs_state) (filePath content : string) :
  filePath_of w (JStr routeName) options = inr filePath ->
  content_of (JStr routeName) config options = inr content ->
  generateApiRoute w (JStr routeName) config options fs
  = match mkdirSync w (path.dirname filePath) fs with
    | (fs1, inl e) =>
        {| disk_after := fs1;
           printed := [ConsoleError (error_message routeName) e];
           escaped := None |}
    | (fs1, inr _) =>
        match writeFileSync w filePath content fs1 with
        | (fs2, inl e) =>
            {| disk_after := fs2;
               printed := [ConsoleError (error_message routeName) e];
               escaped := None |}
        | (fs2, inr _) =>
            {| disk_after := fs2;
               printed := [ConsoleLog (generated_message w filePath)];
               escaped := None |}
        end
    end.
Proof.
  intros Hp Hc. unfold generateApiRoute, try_generate, bind, lift, ret.
  rewrite Hp, Hc.
  destruct (mkdirSync w (path.dirname filePath) fs) as [fs1 [e|[]]]; [done|].
  by destruct (writeFileSync w filePath content fs1) as [fs2 [e|[]]].
Qed.

(** C2. For every route name, base directory and TypeScript flag the
    destination is [path.join] of the base directory, [app], [api], the
    pieces of the route name split on [/], and [route.ts] or [route.js]
    according to the flag. The join does not look inside a segment: when
    the base directory is an absolute path of plain segments and every piece
    of the route name is plain (brackets are ordinary characters), the
    destination is literally [<base>/app/api/<route name>/route.<ext>]. *)
Theorem destination_path (w : env) (routeName base : string) (ts : bool) :
  let extension := if ts then "ts" else "js" in
  let options := {| useTypeScript := JBool ts; baseDir := JStr base |} in
  filePath_of w (JStr routeName) options
  = inr (path.join (base :: "app" :: "api" :: split "/" routeName
                    ++ ["route." +:+ extension]))
  /\ (forall bs : list string,
        bs <> [] -> all_plain bs -> base = "/" +:+ String.concat "/" bs ->
        all_plain (split "/" routeName) ->
        filePath_of w (JStr routeName) options
        = inr (base +:+ "/app/api/" +:+ routeName +:+ "/route." +:+ extension)).
Proof.
  intros extension options.
  pose proof (filePath_of_join w routeName base ts) as Hjoin.
  fold extension options in Hjoin.
  split; [exact Hjoin|].
  intros bs Hbs Pbs -> Prs. rewrite Hjoin. f_equal.
  pose proof (split_nonempty "/" routeName) as Hne.
  rewrite join_plain; try done.
  - f_equal. rewrite <- (concat_split "/" routeName) at 2.
    destruct (split "/" routeName) as [|r rs]; [done|].
    change ("app" :: "api" :: (r :: rs) ++ ["route." +:+ extension])
      with (["app"; "api"] ++ ((r :: rs) ++ ["route." +:+ extension])).
    rewrite !concat_app by done. rewrite ?app_assoc. reflexivity.
  - repeat (constructor; [reflexivity|]).
    apply Forall_app. split; [done|].
    constructor; [|done]. unfold extension. by destruct ts.
Qed.

(** The theorem at the route [users/[id]] under [/tmp/x]. *)
Lemma destination_path_witness :
  filePath_of quiet_env (JStr "users/[id]")
    {| useTypeScript := JBool false; baseDir := JStr "/tmp/x" |}
  = inr ("/tmp/x" +:+ "/app/api/" +:+ "users/[id]" +:+ "/route." +:+ "js").
Proof.
  apply (proj2 (destination_path quiet_env "users/[id]" "/tmp/x" false)
           ["tmp"; "x"]).
  - discriminate.
  - repeat constructor.
  - reflexivity.
  - repeat constructor.
Defined.

(** Without the two options the defaults apply: JavaScript, under the
    working directory. *)
Lemma destination_defaults (w : env) (routeName : string) :
  filePath_of w (JStr routeName)
    {| useTypeScript := JUndefined; baseDir := JUndefined |}
  = inr (path.join (cwd w :: "app" :: "api" :: split "/" routeName
                    ++ ["route.js"])).
Proof. reflexivity. Qed.

(** C1. With route name [users/[id]], method [GET], the [basic] template,
    no TypeScript and base directory [/tmp/x], on a file system that
    refuses nothing, the emitter changes the files on disk in exactly one
    place: [/tmp/x/app/api/users/[id]/route.js] now holds the rendered text,
    and that text contains [Hello from users/[id]!] and
    [async function GET(request)]. *)
Theorem roundtrip_users_id (w : env) (fs : fs_state) :
  no_faults w ->
  let file := "/tmp/x/app/api/users/[id]/route.js" in
  let config := {| method := JStr "GET"; template := templates_at (JStr "basic") |} in
  let options := {| useTypeScript := JBool false; baseDir := JStr "/tmp/x" |} in
  exists (fs' : fs_state) (content : string),
    generateApiRoute w (JStr "users/[id]") config options fs
    = {| disk_after := fs';
         printed := [ConsoleLog (generated_message w file)];
         escaped := None |}
    /\ files fs' = <[file := content]> (files fs)
    /\ (forall other, other <> file -> files fs' !! other = files fs !! other)
    /\ files fs' !! file = Some content
    /\ occurs_in "Hello from users/[id]!" content
    /\ occurs_in "async function GET(request)" content.
Proof.
  intros Hw file config options.
  eexists _, (basic_getContent "GET" "users/[id]" false).
  split; [|split; [|split; [|split; [|split]]]].
  - unfold generateApiRoute.
    erewrite (try_generate_ok w _ _ _ fs file); [reflexivity|exact Hw|..];
      reflexivity.
  - reflexivity.
  - intros other Hother. cbn [files]. by rewrite lookup_insert_ne.
  - cbn [files]. by rewrite lookup_insert_eq.
  - apply includes_occurs. vm_compute. reflexivity.
  - apply includes_occurs. vm_compute. reflexivity.
Qed.

Lemma no_faults_quiet : no_faults quiet_env.
Proof. intros fs op. reflexivity. Qed.

(** The theorem on an empty disk: one file, at the expected path. *)
Lemma roundtrip_users_id_witness :
  exists (fs' : fs_state) (content : string),
    generateApiRoute quiet_env (JStr "users/[id]")
      {| method := JStr "GET"; template := templates_at (JStr "basic") |}
      {| useTypeScript := JBool false; baseDir := JStr "/tmp/x" |} empty_disk
    = {| disk_after := fs';
         printed := [ConsoleLog (generated_message quiet_env
                                   "/tmp/x/app/api/users/[id]/route.js")];
         escaped := None |}
    /\ files fs' = <["/tmp/x/app/api/users/[id]/route.js" := content]> (files empty_disk)
    /\ (forall other, other <> "/tmp/x/app/api/users/[id]/route.js" ->
        files fs' !! other = files empty_disk !! other)
    /\ files fs' !! "/tmp/x/app/api/users/[id]/route.js" = Some content
    /\ occurs_in "Hello from users/[id]!" content
    /\ occurs_in "async function GET(request)" content.
Proof.
  apply (roundtrip_users_id quiet_env empty_disk). intros fs op. reflexivity.
Defined.

(** C3. For each of the five methods and each of the four template keys
    there is a template under that key, and for both values of the
    TypeScript flag (and any route name) its text contains
    [export async function <method>], followed at once by the parameter list
    [(request]: the method name is the name of the exported handler. *)
Theorem handler_named_after_method (m key : string) :
  In m HttpMethod -> In key template_keys ->
  exists t : Template,
    templates_at (JStr key) = Some t
    /\ forall (routeName : string) (ts : bool),
         occurs_in ("export async function " +:+ m) (getContent t m routeName ts)
         /\ occurs_in (handler_head m) (getContent t m routeName ts).
Proof.
  intros _ Hkey. apply lookup_template_keys in Hkey as [t Ht].
  exists t. split; [exact Ht|]. intros routeName ts.
  pose proof (handler_head_occurs t key m routeName ts Ht) as H.
  split; [|exact H].
  destruct H as (b & a & ->). exists b, ("(request" +:+ a).
  unfold handler_head. by rewrite !app_assoc.
Qed.

(** The theorem at [PATCH] and the [withParams] template. *)
Lemma handler_named_after_method_witness :
  exists t : Template,
    templates_at (JStr "withParams") = Some t
    /\ forall (routeName : string) (ts : bool),
         occurs_in ("export async function " +:+ "PATCH")
           (getContent t "PATCH" routeName ts)
         /\ occurs_in (handler_head "PATCH") (getContent t "PATCH" routeName ts).
Proof.
  apply (handler_named_after_method "PATCH" "withParams").
  - simpl. tauto.
  - simpl. tauto.
Defined.

(** C4. For every method, route name and TypeScript flag, the text of the
    [withValidation] template contains the branch taken on a schema
    validation failure, which answers with status 400, and after it the
    general failure branch, which answers with status 500; the two are
    different pieces of text. *)
Theorem validation_template_branches (m routeName : string) (ts : bool) :
  templates_at (JStr "withValidation") = Some withValidation
  /\ occurs_then validation_branch failure_branch
       (getContent withValidation m routeName ts)
  /\ occurs_in "error instanceof z.ZodError" validation_branch
  /\ occurs_in "{ status: 400 }" validation_branch
  /\ occurs_in "{ status: 500 }" failure_branch
  /\ validation_branch <> failure_branch.
Proof.
  split; [reflexivity|]. split.
  - cbn [getContent withValidation]. unfold withValidation_getContent.
    do 6 apply occurs_then_skip. apply occurs_then_around;
      apply includes_occurs; vm_compute; reflexivity.
  - repeat split; try (apply includes_occurs; vm_compute; reflexivity).
    discriminate.
Qed.



End EmitterFacts.

(* ===================================================================== *)
(** * The wizard                                                          *)
(* ===================================================================== *)

Section WizardFacts.
Import JsString.

Lemma wizard_nil (w : env) (c : nat) (a : gmap string jsval) :
  wizard w [] c a
  = (match steps !! c with Some _ => Pending c a | None => Completed a end, []).
Proof. simpl. by destruct (steps !! c). Qed.

Lemma wizard_cons (w : env) (i : user_input) (script : list user_input)
    (c : nat) (a : gmap string jsval) (step : Step) :
  steps !! c = Some step ->
  wizard w (i :: script) c a
  = match respond (prompt_for w step a) i with
    | Ignored => wizard w script c a
    | Rejected error =>
        let '(o, out) := wizard w script c a in (o, ValidationError error :: out)
    | Resolved answer =>
        if isCancel answer then (Cancelled, [CancelNotice "Operation cancelled."])
        else
          let '(c', a') := navigate step answer c a in
          let '(o, out) := wizard w script c' a' in
          (o, announce w c' a' ++ out)
    end.
Proof. intros H. simpl. by rewrite H. Qed.

Lemma wizard_done (w : env) (script : list user_input) (c : nat)
    (a : gmap string jsval) :
  steps !! c = None -> wizard w script c a = (Completed a, []).
Proof. intros H. destruct script; simpl; by rewrite H. Qed.

(** A script that leaves a prompt open can be continued. *)
Lemma wizard_app (w : env) (s1 s2 : list user_input) (c c' : nat)
    (a a' : gmap string jsval) (out : list event) :
  wizard w s1 c a = (Pending c' a', out) ->
  wizard w (s1 ++ s2) c a
  = let '(o, out') := wizard w s2 c' a' in (o, out ++ out').
Proof.
  revert c a out. induction s1 as [|i s1 IH]; intros c a out.
  - rewrite wizard_nil. destruct (steps !! c); [|done].
    intros [= <- <- <-]. simpl app. by destruct (wizard w s2 c a).
  - destruct (steps !! c) as [step|] eqn:Hc; [|by rewrite wizard_done].
    change ((i :: s1) ++ s2) with (i :: (s1 ++ s2)).
    rewrite !(wizard_cons w i _ c a step Hc).
    destruct (respond (prompt_for w step a) i) as [answer|error|].
    + destruct (isCancel answer); [done|].
      destruct (navigate step answer c a) as [c1 a1].
      destruct (wizard w s1 c1 a1) as [o1 out1] eqn:E1.
      intros [= -> <-]. rewrite (IH _ _ _ E1).
      destruct (wizard w s2 c' a'). by rewrite List.app_assoc.
    + destruct (wizard w s1 c a) as [o1 out1] eqn:E1.
      intros [= -> <-]. rewrite (IH _ _ _ E1).
      by destruct (wizard w s2 c' a').
    + apply IH.
Qed.

(** A pending prompt is one of the five. *)
Lemma wizard_pending_step (w : env) (script : list user_input) (c c' : nat)
    (a a' : gmap string jsval) (out : list event) :
  wizard w script c a = (Pending c' a', out) -> is_Some (steps !! c').
Proof.
  revert c a out. induction script as [|i script IH]; intros c a out.
  - rewrite wizard_nil. destruct (steps !! c) eqn:E; [|done].
    intros [= <- <- <-]. by eexists.
  - destruct (steps !! c) as [step|] eqn:Hc; [|by rewrite wizard_done].
    rewrite (wizard_cons w i _ c a step Hc).
    destruct (respond (prompt_for w step a) i) as [answer|error|].
    + destruct (isCancel answer); [done|].
      destruct (navigate step answer c a) as [c1 a1].
      destruct (wizard w script c1 a1) as [o1 out1] eqn:E1.
      intros [= -> <-]. by eapply IH.
    + destruct (wizard w script c a) as [o1 out1] eqn:E1.
      intros [= -> <-]. by eapply IH.
    + apply IH.
Qed.

Lemma respond_choose (message value : string) (options : list (string * string))
    (initialValue : jsval) :
  value ∈ map fst options ->
  respond (SelectPrompt message options initialValue) (Choose value)
  = Resolved (JStr value).
Proof. intros H. simpl. by rewrite bool_decide_eq_true_2. Qed.

Lemma back_offered_method : "back" ∈ map fst (map (fun m => (m, m)) HttpMethod ++ [go_back]).
Proof. apply list_elem_of_In. simpl. tauto. Qed.

Lemma method_offered (m : string) :
  In m HttpMethod -> m ∈ map fst (map (fun m => (m, m)) HttpMethod ++ [go_back]).
Proof. intros H. apply list_elem_of_In. simpl in *. tauto. Qed.

Lemma back_is_no_method : ~ In "back" HttpMethod.
Proof. simpl. intros [H|[H|[H|[H|[H|[]]]]]]; discriminate. Qed.

Lemma back_is_no_template : ~ In "back" template_keys.
Proof. simpl. intros [H|[H|[H|[H|[]]]]]; discriminate. Qed.

Lemma navigate_back (step : Step) (c : nat) (a : gmap string jsval) :
  navigate step (JStr "back") c a = (Nat.max 0 (c - 1), a).
Proof. reflexivity. Qed.

Lemma navigate_forward (step : Step) (answer : jsval) (c : nat)
    (a : gmap string jsval) :
  answer <> JStr "back" ->
  navigate step answer c a = (c + 1, <[answer_key step := answer]> a).
Proof. intros H. unfold navigate. by rewrite bool_decide_eq_false_2. Qed.

(** C7. An answer of [back] moves the cursor down by exactly one, not
    below 0, and leaves [answers] as it is; chosen at the HTTP-method or the
    template prompt it reopens the previous prompt. From the template
    prompt, going back and confirming a method again returns to the template
    prompt with only the method stored anew: the route name is what it was. *)
Theorem go_back_keeps_answers (w : env) (a : gmap string jsval) (m : string) :
  In m HttpMethod ->
  (forall (step : Step) (c : nat),
      exists c', navigate step (JStr "back") c a = (c', a)
                 /\ (c = 0 -> c' = 0) /\ (0 < c -> c' + 1 = c))
  /\ wizard w [Choose "back"] 1 a = (Pending 0 a, announce w 0 a)
  /\ wizard w [Choose "back"] 2 a = (Pending 1 a, announce w 1 a)
  /\ (let a' := <["httpmethod" := JStr m]> a in
      wizard w [Choose "back"; Choose m] 2 a
      = (Pending 2 a', announce w 1 a ++ announce w 2 a')
      /\ a' !! "routename" = a !! "routename"
      /\ get a' "routename" = get a "routename").
Proof.
  intros Hm. split; [|split; [|split]].
  - intros step c. exists (Nat.max 0 (c - 1)). rewrite navigate_back.
    split; [done|]. lia.
  - rewrite (wizard_cons w _ _ 1 a HttpMethodStep) by done.
    cbn [prompt_for]. rewrite respond_choose by apply back_offered_method.
    change (isCancel (JStr "back")) with false. cbv iota.
    rewrite navigate_back, wizard_nil, List.app_nil_r. reflexivity.
  - rewrite (wizard_cons w _ _ 2 a TemplateStep) by done.
    cbn [prompt_for]. rewrite respond_choose by (apply list_elem_of_In; simpl; tauto).
    change (isCancel (JStr "back")) with false. cbv iota.
    rewrite navigate_back, wizard_nil, List.app_nil_r. reflexivity.
  - intros a'. split; [|split].
    + rewrite (wizard_cons w _ _ 2 a TemplateStep) by done.
      cbn [prompt_for]. rewrite respond_choose by (apply list_elem_of_In; simpl; tauto).
      rewrite navigate_back.
      change (isCancel (JStr "back")) with false. cbv iota.
      change (Nat.max 0 (2 - 1)) with 1.
      rewrite (wizard_cons w _ _ 1 a HttpMethodStep) by done.
      cbn [prompt_for]. rewrite respond_choose by by apply method_offered.
      change (isCancel (JStr m)) with false. cbv iota.
      rewrite navigate_forward.
      2:{ intros [= ->]. by apply back_is_no_method in Hm. }
      rewrite wizard_nil. change (1 + 1) with 2.
      change (answer_key HttpMethodStep) with "httpmethod". fold a'.
      rewrite List.app_nil_r. reflexivity.
    + subst a'. by rewrite lookup_insert_ne.
    + subst a'. unfold get. by rewrite lookup_insert_ne.
Qed.

(** The theorem with a stored route name and the method [POST]. *)
Lemma go_back_keeps_answers_witness :
  wizard quiet_env [Choose "back"; Choose "POST"] 2
    (<["routename" := JStr "users/[id]"]> ∅)
  = (Pending 2 (<["httpmethod" := JStr "POST"]>
                  (<["routename" := JStr "users/[id]"]> ∅)),
     announce quiet_env 1 (<["routename" := JStr "users/[id]"]> ∅)
     ++ announce quiet_env 2 (<["httpmethod" := JStr "POST"]>
                                (<["routename" := JStr "users/[id]"]> ∅)))
  /\ (<["httpmethod" := JStr "POST"]> (<["routename" := JStr "users/[id]"]> ∅)
      : gmap string jsval) !! "routename"
     = (<["routename" := JStr "users/[id]"]> ∅ : gmap string jsval) !! "routename"
  /\ get (<["httpmethod" := JStr "POST"]> (<["routename" := JStr "users/[id]"]> ∅))
       "routename"
     = get (<["routename" := JStr "users/[id]"]> ∅) "routename".
Proof.
  apply (go_back_keeps_answers quiet_env
           (<["routename" := JStr "users/[id]"]> ∅) "POST").
  simpl. tauto.
Defined.

(** C8. The validator of the route name rejects a value exactly when its
    trimmed form is empty, always with the same non-empty message; the
    string of three spaces is such a value. A rejected submission leaves the
    prompt of step 0 open with [answers] as it was and shows the message;
    a value whose trimmed form is not empty is accepted. *)
Theorem routeName_validation (value : string) :
  (trim value = "" ->
   validate_routeName value = Some "Route name cannot be empty"
   /\ "Route name cannot be empty" <> ""
   /\ forall (w : env) (a : gmap string jsval) (rest : list user_input),
        wizard w [Enter value] 0 a
        = (Pending 0 a, [ValidationError "Route name cannot be empty"])
        /\ wizard w (Enter value :: rest) 0 a
           = (let '(o, out) := wizard w rest 0 a in
              (o, ValidationError "Route name cannot be empty" :: out)))
  /\ (trim value <> "" -> validate_routeName value = None)
  /\ trim "   " = "".
Proof.
  split; [|split].
  - intros Ht.
    assert (validate_routeName value = Some "Route name cannot be empty") as Hv.
    { unfold validate_routeName. by rewrite Ht. }
    split; [exact Hv|]. split; [done|].
    intros w a rest.
    assert (forall script, wizard w (Enter value :: script) 0 a
            = (let '(o, out) := wizard w script 0 a in
               (o, ValidationError "Route name cannot be empty" :: out))) as H.
    { intros script. rewrite (wizard_cons w _ _ 0 a RouteName) by done.
      cbn [prompt_for respond]. by rewrite Hv. }
    split; [|apply H]. rewrite H, wizard_nil. reflexivity.
  - intros Ht. unfold validate_routeName.
    apply String.eqb_neq in Ht. by rewrite Ht.
  - reflexivity.
Qed.

(** The theorem at the string of three spaces and at [users/[id]]. *)
Lemma routeName_validation_witness :
  (validate_routeName "   " = Some "Route name cannot be empty"
   /\ "Route name cannot be empty" <> ""
   /\ forall (w : env) (a : gmap string jsval) (rest : list user_input),
        wizard w [Enter "   "] 0 a
        = (Pending 0 a, [ValidationError "Route name cannot be empty"])
        /\ wizard w (Enter "   " :: rest) 0 a
           = (let '(o, out) := wizard w rest 0 a in
              (o, ValidationError "Route name cannot be empty" :: out)))
  /\ validate_routeName "users/[id]" = None.
Proof.
  split.
  - apply (proj1 (routeName_validation "   ")). reflexivity.
  - apply (proj1 (proj2 (routeName_validation "users/[id]"))). discriminate.
Defined.

(** ** Invariants of the loop *)

(** An invariant that every forward or backward move preserves holds
    wherever the loop stops. *)
Lemma wizard_invariant (w : env) (I : nat -> gmap string jsval -> Prop) :
  (forall step c a i answer,
      steps !! c = Some step ->
      respond (prompt_for w step a) i = Resolved answer ->
      isCancel answer = false ->
      I c a -> I (navigate step answer c a).1 (navigate step answer c a).2) ->
  forall script c a o out,
    I c a -> wizard w script c a = (o, out) ->
    match o with
    | Pending c' a' => is_Some (steps !! c') /\ I c' a'
    | Completed a' => exists c', steps !! c' = None /\ I c' a'
    | Cancelled => True
    end.
Proof.
  intros Hstep script. induction script as [|i script IH]; intros c a o out HI.
  - rewrite wizard_nil. destruct (steps !! c) eqn:E; intros [= <- <-]; eauto.
  - destruct (steps !! c) as [step|] eqn:Hc.
    2:{ rewrite wizard_done by done. intros [= <- <-]. eauto. }
    rewrite (wizard_cons w i _ c a step Hc).
    destruct (respond (prompt_for w step a) i) as [answer|error|] eqn:Hr.
    + destruct (isCancel answer) eqn:Hcancel; [by intros [= <- <-]|].
      pose proof (Hstep step c a i answer Hc Hr Hcancel HI) as HI'.
      destruct (navigate step answer c a) as [c1 a1].
      destruct (wizard w script c1 a1) as [o1 out1] eqn:E1.
      intros [= <- <-]. by eapply IH.
    + destruct (wizard w script c a) as [o1 out1] eqn:E1.
      intros [= <- <-]. by eapply IH.
    + by apply IH.
Qed.

Lemma navigate_back_free (step : Step) (answer : jsval) (c : nat)
    (a : gmap string jsval) :
  back_free a -> back_free (navigate step answer c a).2.
Proof.
  intros Ha. unfold navigate. case_bool_decide as Hb; [done|].
  intros k. cbn [snd]. rewrite lookup_insert.
  case_decide; [congruence|apply Ha].
Qed.

(** The string [back] never enters [answers]. *)
Lemma wizard_back_free (w : env) (script : list user_input) (c : nat)
    (a a' : gmap string jsval) (out : list event) :
  back_free a -> wizard w script c a = (Completed a', out) -> back_free a'.
Proof.
  intros Ha Hw.
  pose proof (wizard_invariant w (fun _ a => back_free a)) as H.
  specialize (H (fun step c a i answer _ _ _ => navigate_back_free step answer c a)).
  destruct (H script c a _ _ Ha Hw) as (_ & _ & ?). done.
Qed.

Lemma get_back_free (a : gmap string jsval) (k : string) :
  back_free a -> get a k <> JStr "back".
Proof.
  intros Ha. unfold get. specialize (Ha k).
  destruct (a !! k) as [v|]; simpl; congruence.
Qed.

(** What a prompt resolves to, other than the cancel symbol and [back],
    is a well-formed answer for its step. *)
Lemma respond_answered (w : env) (step : Step) (a a0 : gmap string jsval)
    (i : user_input) (answer : jsval) :
  respond (prompt_for w step a) i = Resolved answer ->
  isCancel answer = false -> answer <> JStr "back" ->
  a0 !! answer_key step = Some answer -> answered step a0.
Proof.
  intros Hr Hc Hb Ha0.
  destruct i as [|text|value|b].
  { destruct step; simpl in Hr; injection Hr as <-; discriminate. }
  all: destruct step; cbn [prompt_for respond] in Hr; try discriminate.
  - unfold validate_routeName in Hr.
    destruct (String.eqb_spec (trim text) ""); [discriminate|].
    injection Hr as <-. exists text. repeat split; [done|done|congruence].
  - injection Hr as <-. exists text. split; [done|congruence].
  - case_bool_decide as Hv; [|discriminate]. injection Hr as <-.
    exists value. split; [done|].
    apply list_elem_of_In in Hv. simpl in Hv. simpl.
    destruct Hv as [?|[?|[?|[?|[?|[?|[]]]]]]]; try tauto. congruence.
  - case_bool_decide as Hv; [|discriminate]. injection Hr as <-.
    exists value. split; [done|].
    apply list_elem_of_In in Hv. simpl in Hv. simpl.
    destruct Hv as [?|[?|[?|[?|[?|[]]]]]]; try tauto. congruence.
  - injection Hr as <-. by exists b.
Qed.

Lemma answered_insert_other (s s' : Step) (v : jsval) (a : gmap string jsval) :
  s <> s' -> answered s a -> answered s (<[answer_key s' := v]> a).
Proof.
  intros Hne Hs. destruct s, s'; try done; simpl in *;
    destruct Hs as (x & Hs); exists x;
    by rewrite lookup_insert_ne.
Qed.

Lemma steps_lookup_inj (i j : nat) (s : Step) :
  steps !! i = Some s -> steps !! j = Some s -> i = j.
Proof.
  destruct i as [|[|[|[|[|i]]]]], j as [|[|[|[|[|j]]]]]; simpl;
    rewrite ?lookup_nil; congruence.
Qed.

Lemma navigate_answered (w : env) (step : Step) (c : nat)
    (a : gmap string jsval) (i : user_input) (answer : jsval) :
  steps !! c = Some step ->
  respond (prompt_for w step a) i = Resolved answer ->
  isCancel answer = false ->
  answered_before c a ->
  answered_before (navigate step answer c a).1 (navigate step answer c a).2.
Proof.
  intros Hc Hr Hcancel Ha. unfold navigate. case_bool_decide as Hb; cbn [fst snd].
  - intros j sj Hj. apply Ha. lia.
  - intros j sj Hj Hsj. destruct (decide (j = c)) as [->|Hne].
    + assert (sj = step) as -> by congruence.
      eapply respond_answered; [exact Hr|done|done|].
      by rewrite lookup_insert_eq.
    + apply answered_insert_other.
      * intros ->. apply Hne. by eapply steps_lookup_inj.
      * eapply Ha; [|done]. lia.
Qed.

(** When the loop completes, each of the five steps has a well-formed
    answer. *)
Lemma wizard_completed_answered (w : env) (script : list user_input)
    (a : gmap string jsval) (out : list event) :
  wizard w script 0 ∅ = (Completed a, out) ->
  forall step : Step, answered step a.
Proof.
  intros Hw.
  destruct (wizard_invariant w answered_before (navigate_answered w)
              script 0 ∅ _ _ ltac:(intros ? ? ?; lia) Hw) as (c & Hc & Ha).
  assert (5 <= c) as Hge.
  { destruct c as [|[|[|[|[|c]]]]]; simpl in Hc; try discriminate; lia. }
  intros step.
  destruct step; [apply (Ha 0)|apply (Ha 1)|apply (Ha 2)|apply (Ha 3)|apply (Ha 4)];
    (lia || reflexivity).
Qed.

Lemma respond_interrupt (p : widget) : respond p Interrupt = Resolved cancel_symbol.
Proof. by destruct p. Qed.

(** C6. Whichever of the five prompts is open, an interrupt there ends
    the program at once: the cancellation notice is the last thing printed,
    whatever input might follow, the exit status is 0, and the disk is
    untouched, as the emitter is not reached. *)
Theorem cancel_exits_clean (w : env) (fs : fs_state)
    (before after : list user_input) (c : nat) (a : gmap string jsval)
    (out : list event) :
  wizard w before 0 ∅ = (Pending c a, out) ->
  is_Some (steps !! c)
  /\ wizard w (before ++ Interrupt :: after) 0 ∅
     = (Cancelled, out ++ [CancelNotice "Operation cancelled."])
  /\ main w (before ++ Interrupt :: after) fs
     = {| exit_code := Some 0%Z;
          terminal := (greeting ++ announce w 0 ∅) ++ out
                      ++ [CancelNotice "Operation cancelled."];
          disk := fs |}.
Proof.
  intros Hw. pose proof (wizard_pending_step _ _ _ _ _ _ _ Hw) as [step Hc].
  assert (wizard w (before ++ Interrupt :: after) 0 ∅
          = (Cancelled, out ++ [CancelNotice "Operation cancelled."])) as Hcancel.
  { rewrite (wizard_app _ _ _ _ _ _ _ _ Hw).
    rewrite (wizard_cons w _ _ c a step Hc), respond_interrupt. reflexivity. }
  split; [by eexists|]. split; [exact Hcancel|].
  unfold main. by rewrite Hcancel.
Qed.

(** Each of the five prompts is reached by some script. *)
Lemma every_prompt_reachable (w : env) (c : nat) :
  c < 5 -> exists a out, wizard w (take c happy_script) 0 ∅ = (Pending c a, out).
Proof.
  intros Hc. destruct c as [|[|[|[|[|c]]]]]; [| | | | |lia];
    eexists _, _; vm_compute; reflexivity.
Qed.

(** The theorem for an interrupt at the template prompt. *)
Lemma cancel_exits_clean_witness :
  is_Some (steps !! 2)
  /\ wizard quiet_env ([Enter "users/[id]"; Choose "GET"] ++ Interrupt :: [YesNo true]) 0 ∅
     = (Cancelled,
        (announce quiet_env 1 (<["routename" := JStr "users/[id]"]> ∅)
         ++ announce quiet_env 2
              (<["httpmethod" := JStr "GET"]> (<["routename" := JStr "users/[id]"]> ∅)))
        ++ [CancelNotice "Operation cancelled."])
  /\ main quiet_env ([Enter "users/[id]"; Choose "GET"] ++ Interrupt :: [YesNo true])
       empty_disk
     = {| exit_code := Some 0%Z;
          terminal := (greeting ++ announce quiet_env 0 ∅)
                      ++ (announce quiet_env 1 (<["routename" := JStr "users/[id]"]> ∅)
                          ++ announce quiet_env 2
                               (<["httpmethod" := JStr "GET"]>
                                  (<["routename" := JStr "users/[id]"]> ∅)))
                      ++ [CancelNotice "Operation cancelled."];
          disk := empty_disk |}.
Proof.
  apply (cancel_exits_clean quiet_env empty_disk
           [Enter "users/[id]"; Choose "GET"] [YesNo true] 2
           (<["httpmethod" := JStr "GET"]> (<["routename" := JStr "users/[id]"]> ∅))).
  reflexivity.
Defined.

(** C10. On every step an answer equal to the string [back] moves the
    cursor back instead of being stored, the two text prompts included:
    typed at the route-name prompt it reopens that prompt (the cursor stays
    at 0), typed at the base-directory prompt it reopens the TypeScript
    prompt. So when the loop completes, no property of [answers] is [back];
    in particular the route name handed to the emitter and the base
    directory are not. *)
Theorem back_is_never_stored (w : env) (script : list user_input)
    (answers : gmap string jsval) (out : list event) :
  wizard w script 0 ∅ = (Completed answers, out) ->
  (forall a, wizard w [Enter "back"] 0 a = (Pending 0 a, announce w 0 a))
  /\ (forall a, wizard w [Enter "back"] 4 a = (Pending 3 a, announce w 3 a))
  /\ (forall step c a i,
        steps !! c = Some step ->
        respond (prompt_for w step a) i = Resolved (JStr "back") ->
        wizard w [i] c a = (Pending (c - 1) a, announce w (c - 1) a))
  /\ back_free answers
  /\ get answers "routename" <> JStr "back"
  /\ get answers "basedirectory" <> JStr "back".
Proof.
  intros Hw.
  assert (forall step c a i,
        steps !! c = Some step ->
        respond (prompt_for w step a) i = Resolved (JStr "back") ->
        wizard w [i] c a = (Pending (c - 1) a, announce w (c - 1) a)) as Hback.
  { intros step c a i Hc Hr. rewrite (wizard_cons w _ _ c a step Hc), Hr.
    change (isCancel (JStr "back")) with false. cbv iota.
    rewrite navigate_back, wizard_nil, List.app_nil_r.
    change (Nat.max 0 (c - 1)) with (c - 1).
    assert (is_Some (steps !! (c - 1))) as [s' ->]; [|done].
    apply lookup_lt_is_Some. apply lookup_lt_Some in Hc. lia. }
  assert (back_free answers) as Hfree.
  { eapply wizard_back_free; [|exact Hw]. intros k. by rewrite lookup_empty. }
  split; [|split; [|split; [exact Hback|split; [exact Hfree|split]]]].
  - intros a. by apply (Hback RouteName 0 a).
  - intros a. by apply (Hback BaseDirectory 4 a).
  - by apply get_back_free.
  - by apply get_back_free.
Qed.

(** The theorem for a script that types [back] at the first prompt and
    then answers every prompt. *)
Lemma back_is_never_stored_witness :
  (forall a, wizard quiet_env [Enter "back"] 0 a = (Pending 0 a, announce quiet_env 0 a))
  /\ (forall a, wizard quiet_env [Enter "back"] 4 a = (Pending 3 a, announce quiet_env 3 a))
  /\ (forall step c a i,
        steps !! c = Some step ->
        respond (prompt_for quiet_env step a) i = Resolved (JStr "back") ->
        wizard quiet_env [i] c a = (Pending (c - 1) a, announce quiet_env (c - 1) a))
  /\ back_free (answers_of (wizard quiet_env (Enter "back" :: happy_script) 0 ∅).1)
  /\ get (answers_of (wizard quiet_env (Enter "back" :: happy_script) 0 ∅).1)
       "routename" <> JStr "back"
  /\ get (answers_of (wizard quiet_env (Enter "back" :: happy_script) 0 ∅).1)
       "basedirectory" <> JStr "back".
Proof.
  apply (back_is_never_stored quiet_env (Enter "back" :: happy_script) _
           (wizard quiet_env (Enter "back" :: happy_script) 0 ∅).2).
  vm_compute. reflexivity.
Defined.

(** The request a completed wizard hands to the emitter is well typed. *)
Lemma completed_request (w : env) (script : list user_input)
    (a : gmap string jsval) (out : list event) :
  wizard w script 0 ∅ = (Completed a, out) ->
  exists (routeName m k base : string) (t : Template) (ts : bool),
    get a "routename" = JStr routeName
    /\ trim routeName <> ""
    /\ In m HttpMethod
    /\ lookup_template k templates = Some t
    /\ config_of a = {| method := JStr m; template := Some t |}
    /\ options_of w a = {| useTypeScript := JBool ts; baseDir := JStr base |}.
Proof.
  intros Hw. pose proof (wizard_completed_answered _ _ _ _ Hw) as Ha.
  destruct (Ha RouteName) as (rn & Hrn & Htrim & _).
  destruct (Ha HttpMethodStep) as (m & Hm & Hin).
  destruct (Ha TemplateStep) as (k & Hk & Hkin).
  destruct (Ha TypeScript) as (ts & Hts).
  destruct (Ha BaseDirectory) as (dir & Hdir & _).
  apply lookup_template_keys in Hkin as [t Ht].
  exists rn, m, k, (if String.eqb dir "" then cwd w else dir), t, ts.
  unfold config_of, options_of, get. rewrite Hrn, Hm, Hk, Hts, Hdir.
  cbn [default from_option id].
  change (templates_at (JStr k)) with (lookup_template k templates).
  rewrite Ht. repeat split; try done.
  unfold js_or, defaultConfig_baseDir. cbn [truthy].
  by destruct (String.eqb dir "").
Qed.

(** C5. Once the wizard has completed, whatever the file system does,
    the program exits with status 0 and the last two things it prints are
    the spinner's [API route generated successfully] and the outro
    [API route generation complete!]. If creating the directory or writing
    the file throws, the emitter's only output is the line
    [Error generating API route handler <route name>:] together with the
    exception; the text printed around it and the exit status are those of a
    successful run, whose only difference is the line
    [API route handler generated: <path>]. *)
Theorem emission_failure_is_swallowed (w : env) (script : list user_input)
    (fs : fs_state) (answers : gmap string jsval) (out : list event) :
  wizard w script 0 ∅ = (Completed answers, out) ->
  exists (routeName filePath content : string) (shown : list event),
    get answers "routename" = JStr routeName
    /\ filePath_of w (JStr routeName) (options_of w answers) = inr filePath
    /\ content_of (JStr routeName) (config_of answers) (options_of w answers)
       = inr content
    /\ exit_code (main w script fs) = Some 0%Z
    /\ terminal (main w script fs)
       = (greeting ++ announce w 0 ∅) ++ out
         ++ [SpinnerStart "Generating API route"] ++ shown
         ++ [SpinnerStop "API route generated successfully";
             Outro ("API route generation complete!" +:+ nl
                    +:+ "Your new API route is ready to use.")]
    /\ (forall e fs1,
          mkdirSync w (path.dirname filePath) fs = (fs1, inl e) ->
          shown = [ConsoleError
                     (bytes [226; 157; 140]
                      +:+ " Error generating API route handler "
                      +:+ routeName +:+ ":") e])
    /\ (forall e fs1 fs2,
          mkdirSync w (path.dirname filePath) fs = (fs1, inr tt) ->
          writeFileSync w filePath content fs1 = (fs2, inl e) ->
          shown = [ConsoleError
                     (bytes [226; 157; 140]
                      +:+ " Error generating API route handler "
                      +:+ routeName +:+ ":") e])
    /\ (forall fs1 fs2,
          mkdirSync w (path.dirname filePath) fs = (fs1, inr tt) ->
          writeFileSync w filePath content fs1 = (fs2, inr tt) ->
          shown = [ConsoleLog
                     (bytes [226; 156; 133]
                      +:+ " API route handler generated: " +:+ filePath
                      +:+ " (" +:+ elapsed w +:+ "ms)")]).
Proof.
  intros Hw.
  destruct (completed_request _ _ _ _ Hw)
    as (rn & m & k & base & t & ts & Hrn & _ & _ & _ & Hcfg & Hopt).
  assert (exists p, filePath_of w (JStr rn) (options_of w answers) = inr p)
    as [p Hp] by (rewrite Hopt, filePath_of_join; by eexists).
  assert (exists c, content_of (JStr rn) (config_of answers) (options_of w answers)
                    = inr c) as [c Hc] by (rewrite Hcfg, Hopt; by eexists).
  pose proof (generateApiRoute_typed w rn _ _ fs p c Hp Hc) as Hgen.
  exists rn, p, c,
    (printed (generateApiRoute w (JStr rn) (config_of answers)
                (options_of w answers) fs)).
  assert (escaped (generateApiRoute w (JStr rn) (config_of answers)
                     (options_of w answers) fs) = None) as Hesc.
  { rewrite Hgen.
    destruct (mkdirSync w (path.dirname p) fs) as [fs1 [e|[]]]; [done|].
    by destruct (writeFileSync w p c fs1) as [fs2 [e|[]]]. }
  assert (main w script fs
          = {| exit_code := Some 0%Z;
               terminal := (greeting ++ announce w 0 ∅) ++ out
                 ++ [SpinnerStart "Generating API route"]
                 ++ printed (generateApiRoute w (JStr rn) (config_of answers)
                               (options_of w answers) fs) ++ farewell;
               disk := disk_after (generateApiRoute w (JStr rn) (config_of answers)
                                     (options_of w answers) fs) |}) as Hmain.
  { unfold main. rewrite Hw. cbv zeta. by rewrite Hrn, Hesc. }
  rewrite Hmain. cbn [exit_code terminal disk].
  repeat (split; [done|]).
  split; [|split].
  - intros e fs1 He. by rewrite Hgen, He.
  - intros e fs1 fs2 Hmk Hwr. by rewrite Hgen, Hmk, Hwr.
  - intros fs1 fs2 Hmk Hwr. by rewrite Hgen, Hmk, Hwr.
Qed.

Ltac run_to_failure H :=
  destruct H as (rn & p & c & shown & Hrn & Hp & Hc & Hexit & Hterm
                 & Hmk & Hwr & _);
  vm_compute in Hrn; injection Hrn as <-;
  vm_compute in Hp; injection Hp as <-;
  vm_compute in Hc; injection Hc as <-.

(** The theorem for the complete script, once on a file system that
    refuses everything (the directory cannot be made) and once on one that
    refuses only to write the file. *)
Lemma emission_failure_is_swallowed_witness :
  (exit_code (main readonly_env happy_script empty_disk) = Some 0%Z
   /\ exists before,
        terminal (main readonly_env happy_script empty_disk)
        = before
          ++ [ConsoleError
                (bytes [226; 157; 140] +:+ " Error generating API route handler "
                 +:+ "users/[id]" +:+ ":") denied]
          ++ [SpinnerStop "API route generated successfully";
              Outro ("API route generation complete!" +:+ nl
                     +:+ "Your new API route is ready to use.")])
  /\ (exit_code (main write_protected_env happy_script empty_disk) = Some 0%Z
      /\ exists before,
           terminal (main write_protected_env happy_script empty_disk)
           = before
             ++ [ConsoleError
                   (bytes [226; 157; 140] +:+ " Error generating API route handler "
                    +:+ "users/[id]" +:+ ":") denied]
             ++ [SpinnerStop "API route generated successfully";
                 Outro ("API route generation complete!" +:+ nl
                        +:+ "Your new API route is ready to use.")]).
Proof.
  split.
  - pose proof (emission_failure_is_swallowed readonly_env happy_script empty_disk
                  (answers_of (wizard readonly_env happy_script 0 ∅).1)
                  (wizard readonly_env happy_script 0 ∅).2 eq_refl) as H.
    run_to_failure H. split; [exact Hexit|].
    rewrite Hterm, (Hmk denied empty_disk eq_refl).
    eexists. rewrite !List.app_assoc. reflexivity.
  - pose proof (emission_failure_is_swallowed write_protected_env happy_script
                  empty_disk
                  (answers_of (wizard write_protected_env happy_script 0 ∅).1)
                  (wizard write_protected_env happy_script 0 ∅).2 eq_refl) as H.
    run_to_failure H. split; [exact Hexit|].
    rewrite Hterm, (Hwr denied _ _ eq_refl eq_refl).
    eexists. rewrite !List.app_assoc. reflexivity.
Defined.

End WizardFacts.

(* ===================================================================== *)
(** * More about the emitter                                              *)
(* ===================================================================== *)

Section EmitterMore.
Import JsString.

Lemma try_generate_dirs (w : env) (routeName : jsval) (config : Config)
    (options : Options) (fs : fs_state) :
  dirs fs ⊆ dirs (try_generate w routeName config options fs).1.
Proof.
  unfold try_generate, bind, lift, ret, mkdirSync, writeFileSync.
  destruct (filePath_of w routeName options) as [e|filePath]; [done|].
  destruct (content_of routeName config options) as [e|content]; [done|].
  destruct (fs_fault w fs _) as [e|]; [done|].
  destruct (fs_fault w _ (OpWriteFile _ _)) as [e|]; cbn [fst dirs]; set_solver.
Qed.

Lemma dir_chain_head (fuel : nat) (dir : string) : dir ∈ dir_chain fuel dir.
Proof.
  destruct fuel; simpl; [apply list_elem_of_here|].
  destruct (String.eqb (path.dirname dir) dir); apply list_elem_of_here.
Qed.

(** X3. With a route name that is a string, the emitter's [catch] takes
    every failure of the [try] block: no exception escapes, and exactly one
    line is printed, either [API route handler generated: <path>], and then
    the destination holds the rendered text, or
    [Error generating API route handler <route name>:] with the exception.
    A request that fails before the disk is reached (no template under the
    key, a base directory that is not a string) leaves the disk as it was.
    With a symbol for a route name the [catch] block itself throws while it
    builds its message: the exception escapes, nothing is printed and the
    disk is as it was. *)
Theorem emitter_catches_everything (w : env) (rn : string)
    (config : Config) (options : Options) (fs : fs_state) :
  let g := generateApiRoute w (JStr rn) config options fs in
  escaped g = None
  /\ ((exists p c,
          filePath_of w (JStr rn) options = inr p
          /\ content_of (JStr rn) config options = inr c
          /\ printed g
             = [ConsoleLog (bytes [226; 156; 133]
                            +:+ " API route handler generated: " +:+ p
                            +:+ " (" +:+ elapsed w +:+ "ms)")]
          /\ files (disk_after g) = <[p := c]> (files fs))
      \/ (exists e,
             printed g
             = [ConsoleError (bytes [226; 157; 140]
                              +:+ " Error generating API route handler "
                              +:+ rn +:+ ":") e]))
  /\ (template config = None
      \/ (forall s, or_default (baseDir options) (defaultConfig_baseDir w) <> JStr s) ->
      disk_after g = fs
      /\ exists e,
           printed g
           = [ConsoleError (bytes [226; 157; 140]
                            +:+ " Error generating API route handler "
                            +:+ rn +:+ ":") e])
  /\ (forall d,
        escaped (generateApiRoute w (JSymbol d) config options fs)
        = Some (JsError "Cannot convert a Symbol value to a string")
        /\ printed (generateApiRoute w (JSymbol d) config options fs) = []
        /\ disk_after (generateApiRoute w (JSymbol d) config options fs) = fs).
Proof.
  intros g. subst g. split; [|split; [|split]].
  - unfold generateApiRoute.
    by destruct (try_generate w (JStr rn) config options fs) as [fs' [e|p]].
  - unfold generateApiRoute.
    destruct (try_generate_cases w (JStr rn) config options fs)
      as [(fs' & e & He & Hf)|(fs' & p & c & He & Hp & Hc & Hf)]; rewrite He.
    + right. by exists e.
    + left. by exists p, c.
  - intros Hbad.
    assert (exists e, try_generate w (JStr rn) config options fs = (fs, inl e))
      as [e He].
    { unfold try_generate, bind, lift.
      destruct (filePath_of w (JStr rn) options) as [e|p] eqn:Hp; [by eexists|].
      destruct (content_of (JStr rn) config options) as [e|c] eqn:Hc; [by eexists|].
      exfalso. destruct Hbad as [Ht|Hb].
      - unfold content_of in Hc. by rewrite Ht in Hc.
      - unfold filePath_of, routeParts_of, checked_path in Hp.
        destruct (or_default (baseDir options) (defaultConfig_baseDir w));
          try discriminate. by eapply Hb. }
    unfold generateApiRoute. rewrite He. cbn. split; [done|by exists e].
  - intros d. unfold generateApiRoute, try_generate, bind, lift. by cbn.
Qed.

(** The theorem for a request whose template key is unknown. *)
Lemma emitter_catches_everything_witness :
  disk_after (generateApiRoute quiet_env (JStr "users")
     {| method := JStr "GET"; template := templates_at (JStr "fancy") |}
     {| useTypeScript := JUndefined; baseDir := JUndefined |} empty_disk)
  = empty_disk
  /\ exists e,
       printed (generateApiRoute quiet_env (JStr "users")
         {| method := JStr "GET"; template := templates_at (JStr "fancy") |}
         {| useTypeScript := JUndefined; baseDir := JUndefined |} empty_disk)
       = [ConsoleError (bytes [226; 157; 140]
                        +:+ " Error generating API route handler "
                        +:+ "users" +:+ ":") e].
Proof.
  apply (proj1 (proj2 (proj2 (emitter_catches_everything quiet_env "users"
           {| method := JStr "GET"; template := templates_at (JStr "fancy") |}
           {| useTypeScript := JUndefined; baseDir := JUndefined |} empty_disk)))).
  left. reflexivity.
Defined.

(** X4. Whatever the request and whatever fails, the emitter removes
    nothing: every directory and every file that existed still exists, and
    the content of every path other than the destination is what it was. *)
Theorem emitter_frame (w : env) (routeName : jsval) (config : Config)
    (options : Options) (fs : fs_state) :
  let g := generateApiRoute w routeName config options fs in
  dirs fs ⊆ dirs (disk_after g)
  /\ dom (files fs) ⊆ dom (files (disk_after g))
  /\ forall p, filePath_of w routeName options <> inr p ->
               files (disk_after g) !! p = files fs !! p.
Proof.
  intros g. subst g. rewrite generateApiRoute_disk.
  split; [apply try_generate_dirs|].
  destruct (try_generate_cases w routeName config options fs)
    as [(fs' & e & He & Hf)|(fs' & p & c & He & Hp & Hc & Hf)];
    rewrite He; cbn [fst]; rewrite Hf.
  - done.
  - split; [rewrite dom_insert_L; set_solver|].
    intros q Hq. apply lookup_insert_ne. congruence.
Qed.

(** The theorem at a path that is not the destination. *)
Lemma emitter_frame_witness :
  files (disk_after (generateApiRoute quiet_env (JStr "users")
           {| method := JStr "GET"; template := templates_at (JStr "basic") |}
           {| useTypeScript := JBool true; baseDir := JStr "/srv" |}
           {| files := {[ "/srv/app/page.tsx" := "export default 1" ]}; dirs := ∅ |}))
    !! "/srv/app/page.tsx"
  = files {| files := {[ "/srv/app/page.tsx" := "export default 1" ]}; dirs := ∅ |}
    !! "/srv/app/page.tsx".
Proof.
  apply (proj2 (proj2 (emitter_frame quiet_env (JStr "users")
           {| method := JStr "GET"; template := templates_at (JStr "basic") |}
           {| useTypeScript := JBool true; baseDir := JStr "/srv" |}
           {| files := {[ "/srv/app/page.tsx" := "export default 1" ]}; dirs := ∅ |}))).
  vm_compute. discriminate.
Defined.

(** X5. Nothing is rolled back: when the directory is made and the write
    then throws, the emitter reports the error under the route name, the
    directory it made for the route stays on disk, and no path other than
    the destination has changed. *)
Theorem failed_write_keeps_directories (w : env) (rn : string) (config : Config)
    (options : Options) (fs : fs_state) (p c : string) (e : js_error) :
  filePath_of w (JStr rn) options = inr p ->
  content_of (JStr rn) config options = inr c ->
  fs_fault w fs (OpMkdir (path.dirname p)) = None ->
  (forall fs', fs_fault w fs' (OpWriteFile p c) = Some e) ->
  let g := generateApiRoute w (JStr rn) config options fs in
  printed g
  = [ConsoleError (bytes [226; 157; 140]
                   +:+ " Error generating API route handler " +:+ rn +:+ ":") e]
  /\ escaped g = None
  /\ path.dirname p ∈ dirs (disk_after g)
  /\ forall q, q <> p -> files (disk_after g) !! q = files fs !! q.
Proof.
  intros Hp Hc Hmk Hwr g. subst g.
  rewrite (generateApiRoute_typed w rn config options fs p c Hp Hc).
  unfold mkdirSync, writeFileSync. rewrite Hmk, Hwr. cbn.
  repeat split. apply elem_of_union_l, elem_of_list_to_set, dir_chain_head.
Qed.

(** The theorem on the write-protected file system. *)
Lemma failed_write_keeps_directories_witness :
  printed (generateApiRoute write_protected_env (JStr "users/[id]")
     {| method := JStr "GET"; template := templates_at (JStr "basic") |}
     {| useTypeScript := JBool false; baseDir := JStr "/tmp/x" |} empty_disk)
  = [ConsoleError (bytes [226; 157; 140]
                   +:+ " Error generating API route handler "
                   +:+ "users/[id]" +:+ ":") denied]
  /\ escaped (generateApiRoute write_protected_env (JStr "users/[id]")
     {| method := JStr "GET"; template := templates_at (JStr "basic") |}
     {| useTypeScript := JBool false; baseDir := JStr "/tmp/x" |} empty_disk) = None
  /\ path.dirname "/tmp/x/app/api/users/[id]/route.js"
     ∈ dirs (disk_after (generateApiRoute write_protected_env (JStr "users/[id]")
     {| method := JStr "GET"; template := templates_at (JStr "basic") |}
     {| useTypeScript := JBool false; baseDir := JStr "/tmp/x" |} empty_disk))
  /\ forall q, q <> "/tmp/x/app/api/users/[id]/route.js" ->
       files (disk_after (generateApiRoute write_protected_env (JStr "users/[id]")
         {| method := JStr "GET"; template := templates_at (JStr "basic") |}
         {| useTypeScript := JBool false; baseDir := JStr "/tmp/x" |} empty_disk))
       !! q = files empty_disk !! q.
Proof.
  apply (failed_write_keeps_directories write_protected_env "users/[id]"
     {| method := JStr "GET"; template := templates_at (JStr "basic") |}
     {| useTypeScript := JBool false; baseDir := JStr "/tmp/x" |} empty_disk
     "/tmp/x/app/api/users/[id]/route.js"
     (basic_getContent "GET" "users/[id]" false) denied).
  - reflexivity.
  - reflexivity.
  - reflexivity.
  - intros fs'. reflexivity.
Defined.

Lemma concat_ends_shape (sep : string) (l : list string) (x : string) :
  exists a, String.concat sep (l ++ [x]) = a +:+ x
            /\ (a = "" \/ exists d, a = d +:+ sep).
Proof.
  destruct l as [|y l].
  - exists "". split; [reflexivity|by left].
  - exists (String.concat sep (y :: l) +:+ sep).
    rewrite concat_app by done. split; [by rewrite app_assoc|]. right. by eexists.
Qed.

Lemma app_not_empty_r (a b : string) : b <> "" -> a +:+ b <> "".
Proof. intros Hb. destruct a; [by rewrite app_nil_l|by rewrite app_cons]. Qed.

Lemma join_fold_last (l : list string) (f : string) (acc : option string) :
  f <> "" ->
  fold_left path.join_step (l ++ [f]) acc
  = Some (match fold_left path.join_step l acc with
          | None => f
          | Some j => j +:+ "/" +:+ f
          end).
Proof.
  intros Hf. rewrite fold_left_app. simpl. unfold path.join_step at 1.
  apply String.eqb_neq in Hf. rewrite Hf.
  by destruct (fold_left path.join_step l acc).
Qed.

(** A path that ends in a plain segment keeps it as its last segment. *)
Lemma normalize_last_plain (x f : string) :
  path.plain_segment f = true ->
  x = "" \/ (exists j, x = j +:+ "/") ->
  exists dir, path.normalize (x +:+ f) = dir +:+ f
              /\ (dir = "" \/ exists d, dir = d +:+ "/").
Proof.
  intros Hplain Hx.
  pose proof (plain_segment_spec f Hplain) as (Hf & _ & _ & Hslash).
  assert (exists L, split path.slash (x +:+ f) = L ++ [f]) as [L HL].
  { destruct Hx as [->|[j ->]].
    - exists []. rewrite app_nil_l. by apply split_no_sep.
    - exists (split path.slash j). rewrite app_assoc.
      change ("/" +:+ f) with (String path.slash f).
      rewrite split_app_sep. by rewrite (split_no_sep _ f). }
  unfold path.normalize.
  pose proof (app_not_empty_r x f Hf) as Hne. apply String.eqb_neq in Hne.
  rewrite Hne, (endsWith_char_app path.slash x f Hf Hslash).
  unfold path.normalizeString. rewrite HL, fold_left_app. simpl fold_left.
  rewrite normalize_segment_plain by done. simpl rev.
  destruct (concat_ends_shape "/" (rev (fold_left
              (path.normalize_segment (negb (startsWith "/" (x +:+ f)))) L [])) f)
    as (a & -> & Ha).
  pose proof (app_not_empty_r a f Hf) as Hq. apply String.eqb_neq in Hq.
  rewrite Hq. destruct (startsWith "/" (x +:+ f)).
  - exists ("/" +:+ a). split; [by rewrite app_assoc|]. right.
    destruct Ha as [->|[d ->]]; [by exists ""|]. exists ("/" +:+ d).
    by rewrite app_assoc.
  - by exists a.
Qed.

(** X6. Whatever the route name and the base directory, the pieces [..]
    and [.] included, the file written is named [route.ts] or [route.js]
    according to the flag: the destination is that name, alone or after a
    directory part that ends in [/]. *)
Theorem destination_file_name (w : env) (routeName base : string) (ts : bool) :
  exists dir : string,
    filePath_of w (JStr routeName)
      {| useTypeScript := JBool ts; baseDir := JStr base |}
    = inr (dir +:+ "route." +:+ (if ts then "ts" else "js"))
    /\ (dir = "" \/ exists d, dir = d +:+ "/").
Proof.
  rewrite filePath_of_join. unfold path.join.
  change (base :: "app" :: "api" :: split "/" routeName
            ++ ["route." +:+ (if ts then "ts" else "js")])
    with ((base :: "app" :: "api" :: split "/" routeName)
            ++ ["route." +:+ (if ts then "ts" else "js")]).
  assert (path.plain_segment ("route." +:+ (if ts then "ts" else "js")) = true)
    as Hplain by (by destruct ts).
  pose proof (plain_segment_spec _ Hplain) as (Hf & _).
  rewrite join_fold_last by done.
  set (f := "route." +:+ (if ts then "ts" else "js")) in *.
  destruct (fold_left path.join_step _ None) as [j|].
  - destruct (normalize_last_plain (j +:+ "/") f Hplain) as (dir & Hn & Hd);
      [right; by eexists|].
    exists dir. rewrite app_assoc in Hn. by rewrite Hn.
  - destruct (normalize_last_plain "" f Hplain) as (dir & Hn & Hd); [by left|].
    exists dir. rewrite app_nil_l in Hn. by rewrite Hn.
Qed.

Lemma join_skips_empty (l1 l2 : list string) :
  path.join (l1 ++ "" :: l2) = path.join (l1 ++ l2).
Proof. unfold path.join. by rewrite !fold_left_app. Qed.

(** X13. A slash at the start or at the end of the route name does not
    change the destination: the empty piece it produces is dropped when the
    path is joined. So [users], [/users] and [users/] are written to the same
    file. *)
Theorem outer_slashes_share_destination (w : env) (routeName : string)
    (options : Options) :
  filePath_of w (JStr ("/" +:+ routeName)) options
  = filePath_of w (JStr routeName) options
  /\ filePath_of w (JStr (routeName +:+ "/")) options
     = filePath_of w (JStr routeName) options.
Proof.
  unfold filePath_of, routeParts_of.
  destruct (checked_path _) as [e|base]; [done|]. split; apply f_equal.
  - change (split "/" ("/" +:+ routeName)) with ("" :: split "/" routeName).
    apply (join_skips_empty [base; "app"; "api"]).
  - change (routeName +:+ "/") with (routeName +:+ String "/" "").
    rewrite split_app_sep. change (split "/" "") with [""].
    rewrite <- List.app_assoc.
    apply (join_skips_empty (base :: "app" :: "api" :: split "/" routeName)).
Qed.

Lemma length_app (a b : string) :
  String.length (a +:+ b) = String.length a + String.length b.
Proof. induction a as [|c a IH]; [done|]. rewrite app_cons. simpl. by rewrite IH. Qed.

Lemma app_inv_r (a b c : string) : a +:+ c = b +:+ c -> a = b.
Proof.
  revert b. induction a as [|x a IH]; intros [|y b] H; try done.
  - apply (f_equal String.length) in H. rewrite app_nil_l, length_app in H.
    simpl in H. lia.
  - apply (f_equal String.length) in H. rewrite app_nil_l, length_app in H.
    simpl in H. lia.
  - rewrite !app_cons in H. injection H as -> H. f_equal. by apply IH.
Qed.

(** The literal layout of the destination, for plain pieces. *)
Lemma filePath_of_plain (w : env) (routeName : string) (bs : list string)
    (ts : bool) :
  bs <> [] -> all_plain bs -> all_plain (split "/" routeName) ->
  filePath_of w (JStr routeName)
    {| useTypeScript := JBool ts;
       baseDir := JStr ("/" +:+ String.concat "/" bs) |}
  = inr (("/" +:+ String.concat "/" bs) +:+ "/app/api/" +:+ routeName
         +:+ "/route." +:+ (if ts then "ts" else "js")).
Proof.
  intros Hbs Pbs Prs. rewrite filePath_of_join. f_equal.
  pose proof (split_nonempty "/" routeName) as Hne.
  rewrite join_plain; try done.
  - f_equal. rewrite <- (concat_split "/" routeName) at 2.
    destruct (split "/" routeName) as [|r rs]; [done|].
    change ("app" :: "api" :: (r :: rs) ++ ["route." +:+ (if ts then "ts" else "js")])
      with (["app"; "api"] ++ ((r :: rs) ++ ["route." +:+ (if ts then "ts" else "js")])).
    rewrite !concat_app by done. rewrite ?app_assoc. reflexivity.
  - repeat (constructor; [reflexivity|]).
    apply Forall_app. split; [done|].
    constructor; [|done]. by destruct ts.
Qed.

(** X14. Under an absolute base directory of plain segments, two
    different route names whose pieces are all plain (not empty, not [.]
    and not [..]) have different destinations: such routes never overwrite
    each other. *)
Theorem plain_routes_do_not_collide (w : env) (bs : list string)
    (rn rn' : string) (ts : bool) :
  bs <> [] -> all_plain bs ->
  all_plain (split "/" rn) -> all_plain (split "/" rn') ->
  rn <> rn' ->
  filePath_of w (JStr rn)
    {| useTypeScript := JBool ts; baseDir := JStr ("/" +:+ String.concat "/" bs) |}
  <> filePath_of w (JStr rn')
       {| useTypeScript := JBool ts; baseDir := JStr ("/" +:+ String.concat "/" bs) |}.
Proof.
  intros Hbs Pbs Prn Prn' Hne. rewrite !filePath_of_plain by done.
  intros [= H]. apply Hne.
  apply String.app_inj, String.app_inj in H. by apply app_inv_r in H.
Qed.

(** The theorem for two routes under [/tmp/x]. *)
Lemma plain_routes_do_not_collide_witness :
  filePath_of quiet_env (JStr "users")
    {| useTypeScript := JBool false;
       baseDir := JStr ("/" +:+ String.concat "/" ["tmp"; "x"]) |}
  <> filePath_of quiet_env (JStr "users/[id]")
       {| useTypeScript := JBool false;
          baseDir := JStr ("/" +:+ String.concat "/" ["tmp"; "x"]) |}.
Proof.
  apply (plain_routes_do_not_collide quiet_env ["tmp"; "x"] "users"
           "users/[id]" false).
  - discriminate.
  - repeat constructor.
  - repeat constructor.
  - repeat constructor.
  - discriminate.
Defined.

End EmitterMore.

(* ===================================================================== *)
(** * More about the rendered text                                        *)
(* ===================================================================== *)

Section TemplateMore.
Import JsString.

Ltac open_template Ht :=
  apply lookup_template_cases in Ht as [[-> ->]|[[-> ->]|[[-> ->]|[-> ->]]]];
  cbn [getContent basic withParams withErrorHandling withValidation];
  unfold basic_getContent, withParams_getContent,
    withErrorHandling_getContent, withValidation_getContent.

Lemma occurs_in_straddle_tail (suffix chunk mid lit tail rest : string) :
  endsWith suffix chunk = true ->
  strip_prefix lit tail = Some rest ->
  occurs_in (suffix +:+ mid +:+ lit) (chunk +:+ mid +:+ tail).
Proof.
  intros Hs ->%strip_prefix_Some. by apply occurs_in_straddle.
Qed.

(** X7. The TypeScript flag decides the import line and the whole
    parameter list of the handler. With the flag the text imports
    [NextRequest] beside [NextResponse] and types [request] (and, in the
    [withParams] template, [params]); without it the import names
    [NextResponse] only and the parameters carry no annotation. *)
Theorem typescript_flag_annotates (key : string) (t : Template) (m rn : string) :
  lookup_template key templates = Some t ->
  occurs_in "import { NextRequest, NextResponse } from 'next/server';"
    (getContent t m rn true)
  /\ occurs_in
       ("export async function " +:+ m +:+ "(request: NextRequest"
        +:+ (if String.eqb key "withParams"
             then ", { params }: { params: { [key: string]: string } }"
             else "") +:+ ") {")
       (getContent t m rn true)
  /\ occurs_in "import { NextResponse } from 'next/server';"
       (getContent t m rn false)
  /\ occurs_in
       ("export async function " +:+ m +:+ "(request"
        +:+ (if String.eqb key "withParams" then ", { params }" else "")
        +:+ ") {")
       (getContent t m rn false).
Proof.
  intros Ht. open_template Ht; cbn [String.eqb Ascii.eqb Bool.eqb];
    (split; [|split; [|split]]);
    try (exists nl; eexists; reflexivity);
    do 2 apply occurs_in_app_r;
    (eapply (occurs_in_straddle_tail "export async function " _ m); reflexivity).
Qed.

(** The theorem at the [withParams] template. *)
Lemma typescript_flag_annotates_witness :
  occurs_in "import { NextRequest, NextResponse } from 'next/server';"
    (getContent withParams "PUT" "items" true)
  /\ occurs_in
       ("export async function " +:+ "PUT" +:+ "(request: NextRequest"
        +:+ (if String.eqb "withParams" "withParams"
             then ", { params }: { params: { [key: string]: string } }"
             else "") +:+ ") {")
       (getContent withParams "PUT" "items" true)
  /\ occurs_in "import { NextResponse } from 'next/server';"
       (getContent withParams "PUT" "items" false)
  /\ occurs_in
       ("export async function " +:+ "PUT" +:+ "(request"
        +:+ (if String.eqb "withParams" "withParams" then ", { params }" else "")
        +:+ ") {")
       (getContent withParams "PUT" "items" false).
Proof.
  apply (typescript_flag_annotates "withParams" withParams "PUT" "items").
  reflexivity.
Defined.

Ltac find_around suffix mid :=
  first [ solve [eapply (occurs_in_straddle_tail suffix _ mid); reflexivity]
        | apply occurs_in_app_r; find_around suffix mid ].

(** X8. Every template writes the route name into its text, whatever the
    name is: the three templates other than [withValidation] answer with
    [Hello from <route name>!], and the two templates with a [catch] block
    log [Error in <route name>:]. *)
Theorem templates_mention_route (key : string) (t : Template)
    (m rn : string) (ts : bool) :
  lookup_template key templates = Some t ->
  (key <> "withValidation" ->
   occurs_in ("message: 'Hello from " +:+ rn +:+ "!'") (getContent t m rn ts))
  /\ (key = "withErrorHandling" \/ key = "withValidation" ->
      occurs_in ("console.error('Error in " +:+ rn +:+ ":', error);")
        (getContent t m rn ts)).
Proof.
  intros Ht. open_template Ht; split; intros Hkey;
    try done; try (by destruct Hkey);
    first [ find_around "message: 'Hello from " rn
          | find_around "console.error('Error in " rn ].
Qed.

(** The theorem at the [withErrorHandling] template. *)
Lemma templates_mention_route_witness :
  occurs_in ("message: 'Hello from " +:+ "orders/[orderId]" +:+ "!'")
    (getContent withErrorHandling "DELETE" "orders/[orderId]" true)
  /\ occurs_in ("console.error('Error in " +:+ "orders/[orderId]" +:+ ":', error);")
       (getContent withErrorHandling "DELETE" "orders/[orderId]" true).
Proof.
  pose proof (templates_mention_route "withErrorHandling" withErrorHandling
                "DELETE" "orders/[orderId]" true eq_refl) as [H1 H2].
  split; [apply H1; discriminate|apply H2; by left].
Defined.

End TemplateMore.

(* ===================================================================== *)
(** * More about the wizard and the program                               *)
(* ===================================================================== *)

Section WizardMore.
Import JsString.

(** An accepted answer other than [back]: stored, and one step forward. *)
Lemma wizard_forward (w : env) (i : user_input) (script : list user_input)
    (c : nat) (a : gmap string jsval) (step : Step) (answer : jsval) :
  steps !! c = Some step ->
  respond (prompt_for w step a) i = Resolved answer ->
  isCancel answer = false -> answer <> JStr "back" ->
  wizard w (i :: script) c a
  = (let '(o, out) := wizard w script (c + 1) (<[answer_key step := answer]> a) in
     (o, announce w (c + 1) (<[answer_key step := answer]> a) ++ out)).
Proof.
  intros Hc Hr Hcancel Hback.
  by rewrite (wizard_cons w i script c a step Hc), Hr, Hcancel, navigate_forward.
Qed.

Lemma navigate_cursor (step : Step) (answer : jsval) (c : nat)
    (a : gmap string jsval) :
  (navigate step answer c a).1 <= c + 1.
Proof. unfold navigate. case_bool_decide; simpl; lia. Qed.

(** The loop cannot complete on fewer inputs than steps remain. *)
Lemma wizard_cursor_bound (w : env) (script : list user_input) (c : nat)
    (a a' : gmap string jsval) (out : list event) :
  wizard w script c a = (Completed a', out) -> 5 <= c + length script.
Proof.
  revert c a out. induction script as [|i script IH]; intros c a out.
  - rewrite wizard_nil. destruct (steps !! c) eqn:E; [done|].
    intros _. apply lookup_ge_None in E. simpl in *. lia.
  - destruct (steps !! c) as [step|] eqn:Hc.
    2:{ intros _. apply lookup_ge_None in Hc. simpl in *. lia. }
    rewrite (wizard_cons w i _ c a step Hc).
    destruct (respond (prompt_for w step a) i) as [answer|error|].
    + destruct (isCancel answer); [done|].
      pose proof (navigate_cursor step answer c a) as Hle.
      destruct (navigate step answer c a) as [c1 a1].
      destruct (wizard w script c1 a1) as [o1 out1] eqn:E1.
      intros [= -> <-]. apply IH in E1. simpl in *. lia.
    + destruct (wizard w script c a) as [o1 out1] eqn:E1.
      intros [= -> <-]. apply IH in E1. simpl. lia.
    + intros H. apply IH in H. simpl. lia.
Qed.

Lemma answer_key_in_set (step : Step) : answer_key step ∈ answer_keys_set.
Proof.
  unfold answer_keys_set. apply elem_of_list_to_set, list_elem_of_In.
  destruct step; simpl; tauto.
Qed.

Lemma navigate_dom (step : Step) (answer : jsval) (c : nat)
    (a : gmap string jsval) :
  dom a ⊆ answer_keys_set -> dom (navigate step answer c a).2 ⊆ answer_keys_set.
Proof.
  intros Ha. unfold navigate. case_bool_decide; cbn [snd]; [done|].
  rewrite dom_insert_L.
  intros x [->%elem_of_singleton|Hx]%elem_of_union;
    [apply answer_key_in_set|by apply Ha].
Qed.

Lemma base_directory_is_last (c : nat) : steps !! c = Some BaseDirectory -> c = 4.
Proof. intros H. by apply (steps_lookup_inj c 4 BaseDirectory). Qed.

Lemma navigate_base_unset (step : Step) (answer : jsval) (c : nat)
    (a : gmap string jsval) :
  steps !! c = Some step ->
  (c < 5 -> a !! "basedirectory" = None) ->
  (navigate step answer c a).1 < 5 -> (navigate step answer c a).2 !! "basedirectory" = None.
Proof.
  intros Hc Ha. pose proof (lookup_lt_Some _ _ _ Hc) as Hlt. simpl in Hlt.
  unfold navigate. case_bool_decide; cbn [fst snd]; intros Hlt'; [by apply Ha|].
  rewrite lookup_insert_ne; [by apply Ha|].
  destruct step; try done. apply base_directory_is_last in Hc. lia.
Qed.

(** What holds whenever a prompt is open: the steps before the cursor
    have well-formed answers, no base directory is stored yet, and
    [answers] has no property beyond the five keys. *)
Lemma wizard_pending_state (w : env) (script : list user_input) (c : nat)
    (a : gmap string jsval) (out : list event) :
  wizard w script 0 ∅ = (Pending c a, out) ->
  c < 5 /\ answered_before c a /\ a !! "basedirectory" = None
  /\ dom a ⊆ answer_keys_set.
Proof.
  intros Hw.
  assert (forall step c a i answer,
    steps !! c = Some step ->
    respond (prompt_for w step a) i = Resolved answer ->
    isCancel answer = false ->
    answered_before c a /\ (c < 5 -> a !! "basedirectory" = None)
      /\ dom a ⊆ answer_keys_set ->
    answered_before (navigate step answer c a).1 (navigate step answer c a).2
    /\ ((navigate step answer c a).1 < 5 ->
        (navigate step answer c a).2 !! "basedirectory" = None)
    /\ dom (navigate step answer c a).2 ⊆ answer_keys_set) as Hstep.
  { intros step c0 a0 i answer Hc Hr Hcancel (H1 & H2 & H3).
    split; [by eapply navigate_answered|].
    split; [by apply navigate_base_unset|by apply navigate_dom]. }
  assert (answered_before 0 ∅ /\ (0 < 5 -> (∅ : gmap string jsval) !! "basedirectory" = None)
          /\ dom (∅ : gmap string jsval) ⊆ answer_keys_set) as Hinit.
  { split; [intros i step Hi; lia|]. split; [intros _; apply lookup_empty|].
    rewrite dom_empty_L. apply empty_subseteq. }
  destruct (wizard_invariant w
    (fun c a => answered_before c a
                /\ (c < 5 -> a !! "basedirectory" = None)
                /\ dom a ⊆ answer_keys_set) Hstep script 0 ∅ _ _ Hinit Hw)
    as (Hsome & Ha & Hb & Hd).
  assert (c < 5) as Hlt.
  { destruct Hsome as [s Hs]. by apply lookup_lt_Some in Hs. }
  auto.
Qed.

Lemma wizard_completed_dom (w : env) (script : list user_input)
    (a : gmap string jsval) (out : list event) :
  wizard w script 0 ∅ = (Completed a, out) -> dom a ⊆ answer_keys_set.
Proof.
  intros Hw.
  destruct (wizard_invariant w (fun _ a => dom a ⊆ answer_keys_set)
              (fun step c a i answer _ _ _ H => navigate_dom step answer c a H)
              script 0 ∅ _ _
              ltac:(cbv beta; rewrite dom_empty_L; apply empty_subseteq) Hw)
    as (_ & _ & H).
  done.
Qed.

(** When the wizard has completed, the emitter lets no exception out. *)
Lemma completed_no_escape (w : env) (script : list user_input) (fs : fs_state)
    (a : gmap string jsval) (out : list event) :
  wizard w script 0 ∅ = (Completed a, out) ->
  escaped (generateApiRoute w (get a "routename") (config_of a)
             (options_of w a) fs) = None.
Proof.
  intros Hw.
  destruct (completed_request _ _ _ _ Hw)
    as (rn & m & k & base & t & ts & Hrn & _ & _ & _ & Hcfg & Hopt).
  rewrite Hrn, Hcfg, Hopt.
  erewrite generateApiRoute_typed; [|apply filePath_of_join|reflexivity].
  destruct (mkdirSync w _ fs) as [fs1 [e|[]]]; [done|].
  by destruct (writeFileSync w _ _ fs1) as [fs2 [e|[]]].
Qed.

(** X1. When the loop completes, [answers] has exactly the five
    properties [routename], [httpmethod], [template], [typescript] and
    [basedirectory], whatever the user did on the way (going back, failing
    validation): the route name is a string whose trimmed form is not empty,
    the method is one of the five of [HttpMethod], the template is one of the
    four keys of [templates], the TypeScript answer is a boolean and the base
    directory is a string; neither text answer is [back]. *)
Theorem completed_bundle_well_formed (w : env) (script : list user_input)
    (a : gmap string jsval) (out : list event) :
  wizard w script 0 ∅ = (Completed a, out) ->
  (forall step : Step, answered step a) /\ dom a = answer_keys_set.
Proof.
  intros Hw. pose proof (wizard_completed_answered _ _ _ _ Hw) as Ha.
  split; [exact Ha|].
  apply (anti_symm (⊆)); [by eapply wizard_completed_dom|].
  intros x Hx. unfold answer_keys_set in Hx.
  apply elem_of_list_to_set, list_elem_of_In in Hx.
  change (map answer_key steps)
    with ["routename"; "httpmethod"; "template"; "typescript"; "basedirectory"] in Hx.
  apply elem_of_dom.
  destruct Hx as [<-|[<-|[<-|[<-|[<-|[]]]]]].
  - destruct (Ha RouteName) as (s & -> & _). by eexists.
  - destruct (Ha HttpMethodStep) as (s & -> & _). by eexists.
  - destruct (Ha TemplateStep) as (s & -> & _). by eexists.
  - destruct (Ha TypeScript) as (s & ->). by eexists.
  - destruct (Ha BaseDirectory) as (s & -> & _). by eexists.
Qed.

(** The theorem for a script that goes back once and fails validation
    once before it answers every prompt. *)
Lemma completed_bundle_well_formed_witness :
  (forall step : Step,
      answered step
        (answers_of (wizard quiet_env
           ([Enter " "; Enter "users"; Choose "back"] ++ happy_script) 0 ∅).1))
  /\ dom (answers_of (wizard quiet_env
           ([Enter " "; Enter "users"; Choose "back"] ++ happy_script) 0 ∅).1)
     = answer_keys_set.
Proof.
  apply (completed_bundle_well_formed quiet_env
           ([Enter " "; Enter "users"; Choose "back"] ++ happy_script) _
           (wizard quiet_env
              ([Enter " "; Enter "users"; Choose "back"] ++ happy_script) 0 ∅).2).
  vm_compute. reflexivity.
Defined.

(** X2. The program never ends with status 1: the handler of [main]'s
    rejection is not reached from any script, on any file system. The exit
    status is 0 after a cancellation and after a completed wizard, however
    the emitter fared; only a cancelled or unfinished wizard leaves the
    disk as it was without calling the emitter. *)
Theorem main_exit_status (w : env) (script : list user_input) (fs : fs_state) :
  match (wizard w script 0 ∅).1 with
  | Pending _ _ =>
      exit_code (main w script fs) = None /\ disk (main w script fs) = fs
  | Cancelled =>
      exit_code (main w script fs) = Some 0%Z /\ disk (main w script fs) = fs
  | Completed a =>
      exit_code (main w script fs) = Some 0%Z
      /\ disk (main w script fs)
         = disk_after (generateApiRoute w (get a "routename") (config_of a)
                         (options_of w a) fs)
  end.
Proof.
  unfold main. destruct (wizard w script 0 ∅) as [[c a| |a] out] eqn:Hw;
    cbn [fst]; try done.
  cbv zeta. by rewrite (completed_no_escape w script fs a out Hw).
Qed.

(** X9. No partial generation: a script of fewer than five submissions
    cannot complete the wizard, so the emitter is not called and the disk is
    as it was. *)
Theorem generation_needs_five_answers (w : env) (script : list user_input)
    (fs : fs_state) :
  length script < 5 ->
  (forall a, (wizard w script 0 ∅).1 <> Completed a)
  /\ disk (main w script fs) = fs.
Proof.
  intros Hlen.
  assert (forall a, (wizard w script 0 ∅).1 <> Completed a) as Hno.
  { intros a Ha. destruct (wizard w script 0 ∅) as [o out] eqn:Hw.
    cbn [fst] in Ha. subst o. apply wizard_cursor_bound in Hw. lia. }
  split; [exact Hno|]. unfold main.
  destruct (wizard w script 0 ∅) as [[c a| |a] out]; try done.
  by destruct (Hno a).
Qed.

(** The theorem for four of the five answers. *)
Lemma generation_needs_five_answers_witness :
  (forall a, (wizard quiet_env (take 4 happy_script) 0 ∅).1 <> Completed a)
  /\ disk (main quiet_env (take 4 happy_script) empty_disk) = empty_disk.
Proof.
  apply (generation_needs_five_answers quiet_env (take 4 happy_script) empty_disk).
  simpl. lia.
Defined.

Lemma trim_not_empty (s : string) : trim s <> "" -> s <> "".
Proof. intros H ->. by apply H. Qed.

(** X10. Whenever a prompt is open, every earlier step has a stored
    answer and its prompt, when reopened by going back, starts from that
    answer. The base directory is different: it is stored only by the
    submission that ends the loop, so its prompt always starts from the
    working directory. *)
Theorem reopened_prompt_prefilled (w : env) (script : list user_input) (c : nat)
    (a : gmap string jsval) (out : list event) :
  wizard w script 0 ∅ = (Pending c a, out) ->
  (forall i step, i < c -> steps !! i = Some step ->
     get a (answer_key step) <> JUndefined
     /\ widget_initialValue (prompt_for w step a) = get a (answer_key step))
  /\ widget_initialValue (prompt_for w BaseDirectory a) = JStr (cwd w).
Proof.
  intros Hw. destruct (wizard_pending_state _ _ _ _ _ Hw) as (Hc & Ha & Hb & _).
  split.
  - intros i step Hi Hs. pose proof (Ha i step Hi Hs) as Hstep.
    destruct step; simpl in Hstep.
    + destruct Hstep as (s & Hl & Ht & _). apply trim_not_empty in Ht.
      cbn [prompt_for widget_initialValue].
      change (answer_key RouteName) with "routename".
      unfold get, js_or. rewrite Hl. cbn [default from_option id truthy].
      apply String.eqb_neq in Ht. by rewrite Ht.
    + destruct Hstep as (s & Hl & _).
      cbn [prompt_for widget_initialValue].
      change (answer_key HttpMethodStep) with "httpmethod".
      unfold get. by rewrite Hl.
    + destruct Hstep as (s & Hl & _).
      cbn [prompt_for widget_initialValue].
      change (answer_key TemplateStep) with "template".
      unfold get. by rewrite Hl.
    + destruct Hstep as (s & Hl).
      cbn [prompt_for widget_initialValue].
      change (answer_key TypeScript) with "typescript".
      unfold get. by rewrite Hl.
    + apply base_directory_is_last in Hs. lia.
  - cbn [prompt_for widget_initialValue]. unfold get, js_or. by rewrite Hb.
Qed.

(** The theorem after three answers, at the TypeScript prompt. *)
Lemma reopened_prompt_prefilled_witness :
  (forall i step, i < 3 -> steps !! i = Some step ->
     get (answers_of (wizard quiet_env (take 3 happy_script) 0 ∅).1) (answer_key step)
     <> JUndefined
     /\ widget_initialValue
          (prompt_for quiet_env step
             (answers_of (wizard quiet_env (take 3 happy_script) 0 ∅).1))
        = get (answers_of (wizard quiet_env (take 3 happy_script) 0 ∅).1)
            (answer_key step))
  /\ widget_initialValue
       (prompt_for quiet_env BaseDirectory
          (answers_of (wizard quiet_env (take 3 happy_script) 0 ∅).1))
     = JStr (cwd quiet_env).
Proof.
  apply (reopened_prompt_prefilled quiet_env (take 3 happy_script) 3 _
           (wizard quiet_env (take 3 happy_script) 0 ∅).2).
  vm_compute. reflexivity.
Defined.

Lemma answer_key_inj (s s' : Step) : answer_key s = answer_key s' -> s = s'.
Proof. by destruct s, s'. Qed.

(** X11. An answer other than [back] moves the cursor forward by exactly
    one and is stored under the key of its own step, replacing what was
    there; the keys of the five steps are pairwise different, so the answers
    of all other steps stay as they were. *)
Theorem forward_stores_one_answer (step : Step) (answer : jsval) (c : nat)
    (a : gmap string jsval) :
  answer <> JStr "back" ->
  (navigate step answer c a).1 = c + 1
  /\ (navigate step answer c a).2 !! answer_key step = Some answer
  /\ forall other : Step,
       other <> step ->
       answer_key other <> answer_key step
       /\ (navigate step answer c a).2 !! answer_key other
          = a !! answer_key other.
Proof.
  intros Hb. rewrite navigate_forward by done. cbn [fst snd].
  split; [done|]. split; [apply lookup_insert_eq|].
  intros other Hne.
  assert (answer_key other <> answer_key step) as Hk
    by (intros Hk; by apply answer_key_inj in Hk).
  split; [done|]. by apply lookup_insert_ne.
Qed.

(** The theorem for a second route name over a first. *)
Lemma forward_stores_one_answer_witness :
  (navigate RouteName (JStr "orders") 0
     (<["routename" := JStr "users"]> (<["httpmethod" := JStr "GET"]> ∅))).1 = 0 + 1
  /\ (navigate RouteName (JStr "orders") 0
        (<["routename" := JStr "users"]> (<["httpmethod" := JStr "GET"]> ∅))).2
     !! answer_key RouteName = Some (JStr "orders")
  /\ forall other : Step,
       other <> RouteName ->
       answer_key other <> answer_key RouteName
       /\ (navigate RouteName (JStr "orders") 0
             (<["routename" := JStr "users"]> (<["httpmethod" := JStr "GET"]> ∅))).2
          !! answer_key other
          = (<["routename" := JStr "users"]> (<["httpmethod" := JStr "GET"]> ∅)
             : gmap string jsval) !! answer_key other.
Proof.
  apply (forward_stores_one_answer RouteName (JStr "orders") 0
           (<["routename" := JStr "users"]> (<["httpmethod" := JStr "GET"]> ∅))).
  discriminate.
Defined.

Lemma template_offered (k : string) (t : Template) :
  lookup_template k templates = Some t ->
  k ∈ map fst (map (fun kt => (fst kt, name (snd kt) +:+ " - " +:+ description (snd kt)))
                 templates ++ [go_back])
  /\ k <> "back".
Proof.
  intros Ht. apply lookup_template_cases in Ht.
  destruct Ht as [[-> _]|[[-> _]|[[-> _]|[-> _]]]];
    (split; [apply list_elem_of_In; simpl; tauto|discriminate]).
Qed.

(** The five answers of a run without detours, and what the loop makes
    of them. *)
Lemma wizard_five_answers (w : env) (rn m k dir : string) (t : Template) (b : bool) :
  trim rn <> "" -> rn <> "back" -> In m HttpMethod ->
  lookup_template k templates = Some t -> dir <> "back" ->
  (wizard w [Enter rn; Choose m; Choose k; YesNo b; Enter dir] 0 ∅).1
  = Completed (<["basedirectory" := JStr dir]>
                 (<["typescript" := JBool b]>
                    (<["template" := JStr k]>
                       (<["httpmethod" := JStr m]>
                          (<["routename" := JStr rn]> ∅))))).
Proof.
  intros Htrim Hrn Hm Ht Hdir.
  destruct (template_offered k t Ht) as [Hk Hkb].
  rewrite (wizard_forward w _ _ 0 ∅ RouteName (JStr rn)); try done.
  2:{ cbn [prompt_for respond]. unfold validate_routeName.
      apply String.eqb_neq in Htrim. by rewrite Htrim. }
  2:{ congruence. }
  change (answer_key RouteName) with "routename". change (0 + 1) with 1.
  rewrite (wizard_forward w _ _ 1 _ HttpMethodStep (JStr m)); try done.
  2:{ cbn [prompt_for]. by apply respond_choose, method_offered. }
  2:{ intros [= ->]. by apply back_is_no_method in Hm. }
  change (answer_key HttpMethodStep) with "httpmethod". change (1 + 1) with 2.
  rewrite (wizard_forward w _ _ 2 _ TemplateStep (JStr k)); try done.
  2:{ cbn [prompt_for]. by apply respond_choose. }
  2:{ congruence. }
  change (answer_key TemplateStep) with "template". change (2 + 1) with 3.
  rewrite (wizard_forward w _ _ 3 _ TypeScript (JBool b)); try done.
  change (answer_key TypeScript) with "typescript". change (3 + 1) with 4.
  rewrite (wizard_forward w _ _ 4 _ BaseDirectory (JStr dir)); try done.
  congruence.
Qed.

(** X12. End to end: five well-formed answers given in order, on a file
    system that refuses nothing, make the program write the text of the
    chosen template, rendered for the chosen method, route name and flag,
    to [route.ts] or [route.js] under [app/api/<route>] of the base
    directory, or of the working directory when the base directory was left
    empty; no other file changes, the exit status is 0, and the last three
    things printed are the line [API route handler generated: <that path>]
    with the elapsed time, the spinner's [API route generated successfully]
    and the outro. *)
Theorem five_answers_generate (w : env) (fs : fs_state) (rn m k dir : string)
    (t : Template) (b : bool) :
  no_faults w -> trim rn <> "" -> rn <> "back" -> In m HttpMethod ->
  lookup_template k templates = Some t -> dir <> "back" ->
  let base := if String.eqb dir "" then cwd w else dir in
  let file := path.join (base :: "app" :: "api" :: split "/" rn
                         ++ ["route." +:+ (if b then "ts" else "js")]) in
  let r := main w [Enter rn; Choose m; Choose k; YesNo b; Enter dir] fs in
  exit_code r = Some 0%Z
  /\ files (disk r) = <[file := getContent t m rn b]> (files fs)
  /\ exists shown,
       terminal r
       = shown
         ++ [ConsoleLog (bytes [226; 156; 133]
                         +:+ " API route handler generated: " +:+ file
                         +:+ " (" +:+ elapsed w +:+ "ms)");
             SpinnerStop "API route generated successfully";
             Outro ("API route generation complete!" +:+ nl
                    +:+ "Your new API route is ready to use.")].
Proof.
  intros Hw Htrim Hrn Hm Ht Hdir base file r.
  pose proof (wizard_five_answers w rn m k dir t b Htrim Hrn Hm Ht Hdir) as Hwiz.
  subst r. unfold main.
  destruct (wizard w [Enter rn; Choose m; Choose k; YesNo b; Enter dir] 0 ∅)
    as [o out]. cbn [fst] in Hwiz. subst o. cbv zeta.
  set (a := <["basedirectory" := JStr dir]> _).
  assert (forall key v, a !! key = Some v -> get a key = v) as Hget
    by (intros key v Hkey; unfold get; by rewrite Hkey).
  assert (a !! "routename" = Some (JStr rn)) as H1
    by (unfold a; rewrite ?lookup_insert_ne by done; apply lookup_insert_eq).
  assert (a !! "httpmethod" = Some (JStr m)) as H2
    by (unfold a; rewrite ?lookup_insert_ne by done; apply lookup_insert_eq).
  assert (a !! "template" = Some (JStr k)) as H3
    by (unfold a; rewrite ?lookup_insert_ne by done; apply lookup_insert_eq).
  assert (a !! "typescript" = Some (JBool b)) as H4
    by (unfold a; rewrite ?lookup_insert_ne by done; apply lookup_insert_eq).
  assert (a !! "basedirectory" = Some (JStr dir)) as H5
    by (unfold a; apply lookup_insert_eq).
  rewrite (Hget _ _ H1).
  assert (config_of a = {| method := JStr m; template := Some t |}) as ->.
  { unfold config_of. rewrite (Hget _ _ H2), (Hget _ _ H3).
    change (templates_at (JStr k)) with (lookup_template k templates).
    by rewrite Ht. }
  assert (options_of w a = {| useTypeScript := JBool b; baseDir := JStr base |}) as ->.
  { unfold options_of. rewrite (Hget _ _ H4), (Hget _ _ H5).
    unfold js_or, defaultConfig_baseDir, base. cbn [truthy].
    by destruct (String.eqb dir ""). }
  erewrite generateApiRoute_typed; [|apply filePath_of_join|reflexivity].
  fold file. unfold mkdirSync, writeFileSync. rewrite !Hw.
  cbn [escaped exit_code disk disk_after files printed terminal].
  split; [done|]. split; [done|].
  exists ((greeting ++ announce w 0 ∅) ++ out
          ++ [SpinnerStart "Generating API route"]).
  rewrite <- !List.app_assoc. reflexivity.
Qed.

(** The theorem for a route under the working directory. *)
Lemma five_answers_generate_witness :
  exit_code (main quiet_env
      [Enter "orders/[orderId]"; Choose "DELETE"; Choose "withValidation";
       YesNo true; Enter ""] empty_disk) = Some 0%Z
  /\ files (disk (main quiet_env
      [Enter "orders/[orderId]"; Choose "DELETE"; Choose "withValidation";
       YesNo true; Enter ""] empty_disk))
     = <[path.join ((if String.eqb "" "" then cwd quiet_env else "")
                    :: "app" :: "api" :: split "/" "orders/[orderId]"
                    ++ ["route." +:+ (if true then "ts" else "js")])
         := getContent withValidation "DELETE" "orders/[orderId]" true]>
       (files empty_disk)
  /\ exists shown,
       terminal (main quiet_env
         [Enter "orders/[orderId]"; Choose "DELETE"; Choose "withValidation";
          YesNo true; Enter ""] empty_disk)
       = shown
         ++ [ConsoleLog (bytes [226; 156; 133]
               +:+ " API route handler generated: "
               +:+ path.join ((if String.eqb "" "" then cwd quiet_env else "")
                              :: "app" :: "api" :: split "/" "orders/[orderId]"
                              ++ ["route." +:+ (if true then "ts" else "js")])
               +:+ " (" +:+ elapsed quiet_env +:+ "ms)");
             SpinnerStop "API route generated successfully";
             Outro ("API route generation complete!" +:+ nl
                    +:+ "Your new API route is ready to use.")].
Proof.
  apply (five_answers_generate quiet_env empty_disk "orders/[orderId]" "DELETE"
           "withValidation" "" withValidation true).
  - exact no_faults_quiet.
  - vm_compute. discriminate.
  - discriminate.
  - simpl. tauto.
  - reflexivity.
  - discriminate.
Defined.

Example five_answers_path :
  path.join ((if String.eqb "" "" then cwd quiet_env else "")
             :: "app" :: "api" :: split "/" "orders/[orderId]" ++ ["route.ts"])
  = "/home/dev/project/app/api/orders/[orderId]/route.ts".
Proof. reflexivity. Qed.

End WizardMore.
